(** * GeoStore: the ingestion and federated-query facade of utymap

    A shallow embedding of [core/src/index/GeoStore.cpp]
    (class [GeoStore::GeoStoreImpl]) and the properties of its public
    operations.

    The facade owns a [std::map] from store keys to element stores and
    drives external collaborators (parsers, data visitors, element stores,
    a cancellation token).  The embedding keeps the facade's code as it is
    written and records every call made on a collaborator in a trace, so
    that statements such as "exactly one erase is issued" or "a store
    without data receives no search call" can be stated and proved. *)

From Stdlib Require Import List String Ascii ZArith Bool Lia.
From Stdlib Require Import Orders OrdersEx.
Import ListNotations.
Local Open Scope string_scope.
Local Open Scope list_scope.

(** ** Values passed through the facade *)

(** Modelled from the spec: [GeoCoordinate] and [BoundingBox] are declared
    outside the translated file; a bounding box is an axis-aligned
    geographic extent.  Coordinates are kept as integers (scaled degrees);
    the facade never computes with them. *)
Record GeoCoordinate := mkGeoCoordinate { latitude : Z; longitude : Z }.

Record BoundingBox := mkBoundingBox
  { minPoint : GeoCoordinate; maxPoint : GeoCoordinate }.

(** Modelled from the spec: [QuadKey] is an opaque identifier of one tile. *)
Record QuadKey := mkQuadKey
  { levelOfDetail : Z; tileX : Z; tileY : Z }.

(** Modelled from the spec: [LodRange] is an inclusive range of detail
    levels. *)
Record LodRange := mkLodRange { lodStart : Z; lodEnd : Z }.

(** Modelled from the spec: [Element] is an opaque geospatial record
    (identity, tags, geometry). *)
Record Element := mkElement
  { elementId : Z;
    elementTags : list (Z * Z);
    elementGeometry : list GeoCoordinate }.

(** Modelled from the spec: [StyleProvider] is an external decision object a
    store consults to decide whether an element is retained; the facade
    passes it through unexamined. *)
Definition StyleProvider := Element -> bool.

(** Modelled from the spec: [ElementVisitor] is the caller's visitor, passed
    by reference to every store search; its observable state is the
    sequence of elements it has been shown. *)
Definition ElementVisitor := list Element.

(** Modelled from the spec: [CancellationToken] is a cooperative flag that
    is only ever polled.  Another thread may set it at any moment, so the
    token is given by the answers of its successive polls: [tok n] is what
    [isCancelled] answers at the [n]-th poll of an execution. *)
Definition CancellationToken := nat -> bool.

Inductive FormatType := Shape | Xml | Pbf | Json.

(** ** Bounding boxes of offered elements *)

(** The empty extent: expanding it with a coordinate gives that point. *)
Definition emptyBoundingBox : BoundingBox :=
  mkBoundingBox (mkGeoCoordinate 900000000 1800000000)
                (mkGeoCoordinate (-900000000) (-1800000000)).

Definition expandCoordinate (b : BoundingBox) (c : GeoCoordinate) : BoundingBox :=
  mkBoundingBox
    (mkGeoCoordinate (Z.min (latitude (minPoint b)) (latitude c))
                     (Z.min (longitude (minPoint b)) (longitude c)))
    (mkGeoCoordinate (Z.max (latitude (maxPoint b)) (latitude c))
                     (Z.max (longitude (maxPoint b)) (longitude c))).

Definition expandElement (b : BoundingBox) (e : Element) : BoundingBox :=
  fold_left expandCoordinate (elementGeometry e) b.

(** The aggregate extent of a sequence of elements. *)
Definition boundingBoxOf (es : list Element) : BoundingBox :=
  fold_left expandElement es emptyBoundingBox.

(** ** The element store interface *)

(** Modelled from the spec: [ElementStore] is the abstract base class the
    registry holds by [std::unique_ptr]; its declaration is outside the
    translated file.  A store is a value of some state type [S]; each
    virtual method is a function of that state.  [hasData] is a [const]
    method.  A search receives the visitor and the token by reference: it
    returns the visitor's new state and the number of token polls made so
    far.  The methods are total: a store whose method throws is not
    covered. *)
Class ElementStore (S : Type) := {
  storeRange : S -> Element -> LodRange -> StyleProvider -> S * bool;
  storeQuadKey : S -> Element -> QuadKey -> StyleProvider -> S * bool;
  storeBoundingBox :
    S -> Element -> BoundingBox -> LodRange -> StyleProvider -> S * bool;
  eraseQuadKey : S -> QuadKey -> S;
  eraseBoundingBox : S -> BoundingBox -> LodRange -> S;
  storeHasData : S -> QuadKey -> bool;
  searchTerms :
    S -> string -> string -> string -> BoundingBox -> LodRange ->
    ElementVisitor -> CancellationToken -> nat -> S * (ElementVisitor * nat);
  searchQuadKey :
    S -> QuadKey -> ElementVisitor -> CancellationToken -> nat ->
    S * (ElementVisitor * nat)
}.

(** Modelled from the spec: the contract of the tile-scoped erase ("can
    erase previously stored data scoped to a tile", "can report whether it
    holds any data for a given spatial tile"): after [erase(quadKey)] the
    store reports no data for that tile. *)
Class ElementStoreLaws (S : Type) `{ElementStore S} : Prop := {
  erase_clears_tile :
    forall (s : S) (q : QuadKey), storeHasData (eraseQuadKey s q) q = false
}.

(** ** The store map *)

(** [std::unique_ptr<T>]: either null or the owned object. *)
Abbreviation unique_ptr := option (only parsing).

(** [std::map<std::string, V>] keeps its entries in ascending key order
    ([std::less<std::string>], the lexicographic order on bytes); it is
    modelled by the list of its entries in iteration order. *)
Module StdMap.

Definition key_compare : string -> string -> comparison := String_as_OT.compare.

Section Map.
Context {V : Type}.

Definition t := list (string * V).

Definition keys (m : t) : list string := map fst m.

(** [m.find(k)] *)
Fixpoint find (k : string) (m : t) : option V :=
  match m with
  | [] => None
  | (k', v) :: m' =>
      match key_compare k k' with
      | Eq => Some v
      | Lt => None
      | Gt => find k m'
      end
  end.

(** [m.emplace(k, v)]: inserts unless an entry with key [k] exists. *)
Fixpoint emplace (k : string) (v : V) (m : t) : t :=
  match m with
  | [] => [(k, v)]
  | (k', v') :: m' =>
      match key_compare k k' with
      | Eq => m
      | Lt => (k, v) :: m
      | Gt => (k', v') :: emplace k v m'
      end
  end.

(** Assignment through a reference to the mapped value of [k]. *)
Fixpoint assign (k : string) (v : V) (m : t) : t :=
  match m with
  | [] => []
  | (k', v') :: m' =>
      match key_compare k k' with
      | Eq => (k', v) :: m'
      | Lt => m
      | Gt => (k', v') :: assign k v m'
      end
  end.

(** The representation invariant: keys strictly ascending. *)
Fixpoint ascending (m : t) : bool :=
  match m with
  | [] => true
  | (k, _) :: m' =>
      forallb (fun k' => match key_compare k k' with Lt => true | _ => false end)
              (keys m')
      && ascending m'
  end.

End Map.
Arguments t : clear implicits.
End StdMap.

(** ** Executions of the facade *)

(** A call made through a store pointer, with its arguments. *)
Inductive Call :=
| StoreRange (element : Element) (range : LodRange) (styleProvider : StyleProvider)
| StoreQuadKey (element : Element) (quadKey : QuadKey) (styleProvider : StyleProvider)
| StoreBoundingBox (element : Element) (bbox : BoundingBox) (range : LodRange)
                   (styleProvider : StyleProvider)
| EraseQuadKey (quadKey : QuadKey)
| EraseBoundingBox (bbox : BoundingBox) (range : LodRange)
| HasData (quadKey : QuadKey)
| SearchTerms (notTerms andTerms orTerms : string) (bbox : BoundingBox)
              (range : LodRange) (cancelToken : CancellationToken)
| SearchQuadKey (quadKey : QuadKey) (cancelToken : CancellationToken).

(** Who polls the token: the facade's own code or the data visitor that
    feeds parsed elements to it. *)
Inductive Poller := Coordinator | DataVisitor.

(** What an execution does to its collaborators, in order. *)
Inductive Event :=
| OnStore (storeKey : string) (call : Call)
| Polled (who : Poller) (answer : bool).

Inductive Exception :=
| NullPointerDereference
| domain_error (what : string)
| ParserError.

Inductive Outcome (A : Type) :=
| Returned (a : A)
| Thrown (e : Exception).
Arguments Returned {A} a.
Arguments Thrown {A} e.

(** One record read from a source file by its parser: a decoded element, or
    bytes the parser rejects. *)
Inductive ParsedRecord :=
| Decoded (element : Element)
| Malformed.

(** Modelled from the spec: [utymap::utils::endsWith] is declared outside
    the translated file; it tests whether [ending] is a suffix of
    [fullString], comparing characters as stored. *)
Definition endsWith (fullString ending : string) : bool :=
  if Nat.leb (String.length ending) (String.length fullString)
  then String.eqb
         (substring (String.length fullString - String.length ending)
                    (String.length ending) fullString)
         ending
  else false.

(** [GeoStoreImpl::getFormatTypeFromPath] *)
Definition getFormatTypeFromPath (path : string) : FormatType :=
  if endsWith path "pbf" then Pbf
  else if endsWith path "xml" then Xml
  else if endsWith path "json" then Json
  else Shape.

Section Facade.

Context {Store : Type} `{ElementStore Store}.

(** The build option [PBF_SUPPORTED_ENABLED]. *)
Variable PBF_SUPPORTED_ENABLED : bool.

(** The records the parser of a format reads from the file at a path. *)
Variable readRecords : FormatType -> string -> list ParsedRecord.

(** The facade's member [storeMap_] together with the record of the
    execution so far: the calls made on collaborators and the number of
    token polls. (The member [stringTable_] is only handed to the data
    visitors.) *)
Record State := mkState {
  storeMap_ : StdMap.t (unique_ptr Store);
  trace : list Event;
  polls : nat
}.

(** A member function: it returns or throws, and leaves a state. *)
Definition M (A : Type) := State -> Outcome A * State.

Definition ret {A} (a : A) : M A := fun g => (Returned a, g).

Definition throw {A} (e : Exception) : M A := fun g => (Thrown e, g).

Definition bind {A B} (m : M A) (f : A -> M B) : M B := fun g =>
  match m g with
  | (Returned a, g') => f a g'
  | (Thrown e, g') => (Thrown e, g')
  end.

Notation "x <- m ;; k" := (bind m (fun x => k))
  (at level 61, m at next level, right associativity).
Notation "m ;;; k" := (bind m (fun _ => k))
  (at level 61, right associativity).

(** [cancelToken.isCancelled()] *)
Definition isCancelled (who : Poller) (cancelToken : CancellationToken) : M bool :=
  fun g =>
    let answer := cancelToken (polls g) in
    (Returned answer,
     mkState (storeMap_ g) (trace g ++ [Polled who answer]) (S (polls g))).

(** [storeMap_[storeKey]]: a key without entry gets a null pointer. *)
Definition subscript (storeKey : string) : M unit := fun g =>
  (Returned tt,
   mkState (StdMap.emplace storeKey None (storeMap_ g)) (trace g) (polls g)).

(** [p->method(args)] through the pointer stored under [storeKey]; a null
    pointer has no object to call. *)
Definition invoke {A} (storeKey : string) (call : Call)
    (method : Store -> Store * A) : M A := fun g =>
  match StdMap.find storeKey (storeMap_ g) with
  | Some (Some s) =>
      let (s', a) := method s in
      (Returned a,
       mkState (StdMap.assign storeKey (Some s') (storeMap_ g))
               (trace g ++ [OnStore storeKey call]) (polls g))
  | _ => (Thrown NullPointerDereference, g)
  end.

(** The same for the two searches, which may poll the token. *)
Definition invokeSearch (storeKey : string) (call : Call)
    (method : Store -> nat -> Store * (ElementVisitor * nat)) : M ElementVisitor :=
  fun g =>
  match StdMap.find storeKey (storeMap_ g) with
  | Some (Some s) =>
      let '(s', (visitor, n)) := method s (polls g) in
      (Returned visitor,
       mkState (StdMap.assign storeKey (Some s') (storeMap_ g))
               (trace g ++ [OnStore storeKey call]) n)
  | _ => (Thrown NullPointerDereference, g)
  end.

(** [GeoStoreImpl::registerStore] *)
Definition registerStore (storeKey : string) (store : unique_ptr Store) : M unit :=
  fun g =>
  (Returned tt,
   mkState (StdMap.emplace storeKey store (storeMap_ g)) (trace g) (polls g)).

(** [GeoStoreImpl::add], element overload. *)
Definition add_element (storeKey : string) (element : Element) (range : LodRange)
    (styleProvider : StyleProvider) (cancelToken : CancellationToken) : M unit :=
  subscript storeKey ;;;
  invoke storeKey (StoreRange element range styleProvider)
         (fun s => storeRange s element range styleProvider) ;;;
  ret tt.

(** Modelled from the spec: the parsers and the data visitors
    ([ShapeParser], [OsmXmlParser], [OsmPbfParser], [OsmJsonParser],
    [ShapeDataVisitor], [OsmDataVisitor]) are declared outside the
    translated file.  The parser hands every decoded element to the
    visitor, which polls the token between elements, offers the element to
    the functor and aggregates the bounding box of the elements offered;
    cancellation stops the run without throwing and [complete()] returns
    the box accumulated so far; a record the parser rejects throws. *)
Fixpoint parseAndComplete (records : list ParsedRecord)
    (functor : Element -> M bool) (cancelToken : CancellationToken)
    (bbox : BoundingBox) : M BoundingBox :=
  match records with
  | [] => ret bbox
  | record :: rest =>
      cancelled <- isCancelled DataVisitor cancelToken ;;
      if cancelled : bool then ret bbox
      else match record with
           | Malformed => throw ParserError
           | Decoded element =>
               functor element ;;;
               parseAndComplete rest functor cancelToken (expandElement bbox element)
           end
  end.

(** [GeoStoreImpl::add], the overload taking a path, a token and a functor:
    the ingestion dispatcher. *)
Definition add_path (path : string) (cancelToken : CancellationToken)
    (functor : Element -> M bool) : M BoundingBox :=
  match getFormatTypeFromPath path with
  | Shape =>
      parseAndComplete (readRecords Shape path) functor cancelToken emptyBoundingBox
  | Xml =>
      parseAndComplete (readRecords Xml path) functor cancelToken emptyBoundingBox
  | Pbf =>
      if PBF_SUPPORTED_ENABLED
      then parseAndComplete (readRecords Pbf path) functor cancelToken emptyBoundingBox
      else throw (domain_error "Not supported.")
  | Json =>
      parseAndComplete (readRecords Json path) functor cancelToken emptyBoundingBox
  end.

(** [GeoStoreImpl::add], the overload taking a path and a quad key. *)
Definition add_path_quadKey (storeKey path : string) (quadKey : QuadKey)
    (styleProvider : StyleProvider) (cancelToken : CancellationToken) : M unit :=
  subscript storeKey ;;;
  add_path path cancelToken (fun element =>
    invoke storeKey (StoreQuadKey element quadKey styleProvider)
           (fun s => storeQuadKey s element quadKey styleProvider)) ;;;
  cancelled <- isCancelled Coordinator cancelToken ;;
  if cancelled : bool
  then invoke storeKey (EraseQuadKey quadKey) (fun s => (eraseQuadKey s quadKey, tt))
  else ret tt.

(** [GeoStoreImpl::add], the overload taking a path and a range. *)
Definition add_path_range (storeKey path : string) (range : LodRange)
    (styleProvider : StyleProvider) (cancelToken : CancellationToken) : M unit :=
  subscript storeKey ;;;
  bbox <- add_path path cancelToken (fun element =>
    invoke storeKey (StoreRange element range styleProvider)
           (fun s => storeRange s element range styleProvider)) ;;
  cancelled <- isCancelled Coordinator cancelToken ;;
  if cancelled : bool
  then invoke storeKey (EraseBoundingBox bbox range)
              (fun s => (eraseBoundingBox s bbox range, tt))
  else ret tt.

(** [GeoStoreImpl::add], the overload taking a path, a bounding box and a
    range. *)
Definition add_path_bbox_range (storeKey path : string) (bbox : BoundingBox)
    (range : LodRange) (styleProvider : StyleProvider)
    (cancelToken : CancellationToken) : M unit :=
  subscript storeKey ;;;
  add_path path cancelToken (fun element =>
    invoke storeKey (StoreBoundingBox element bbox range styleProvider)
           (fun s => storeBoundingBox s element bbox range styleProvider)) ;;;
  cancelled <- isCancelled Coordinator cancelToken ;;
  if cancelled : bool
  then invoke storeKey (EraseBoundingBox bbox range)
              (fun s => (eraseBoundingBox s bbox range, tt))
  else ret tt.

(** The body of [for (const auto &pair : storeMap_)] in the predicate
    search, over the keys still to visit. *)
Fixpoint search_terms_loop (storeKeys : list string)
    (notTerms andTerms orTerms : string) (bbox : BoundingBox) (range : LodRange)
    (visitor : ElementVisitor) (cancelToken : CancellationToken) : M ElementVisitor :=
  match storeKeys with
  | [] => ret visitor
  | storeKey :: rest =>
      visitor' <- invokeSearch storeKey
                    (SearchTerms notTerms andTerms orTerms bbox range cancelToken)
                    (fun s n => searchTerms s notTerms andTerms orTerms bbox range
                                            visitor cancelToken n) ;;
      search_terms_loop rest notTerms andTerms orTerms bbox range visitor' cancelToken
  end.

(** [GeoStoreImpl::search], predicate overload. *)
Definition search_terms (notTerms andTerms orTerms : string) (bbox : BoundingBox)
    (range : LodRange) (visitor : ElementVisitor)
    (cancelToken : CancellationToken) : M ElementVisitor := fun g =>
  search_terms_loop (StdMap.keys (storeMap_ g))
                    notTerms andTerms orTerms bbox range visitor cancelToken g.

(** The loop of the quad key search. *)
Fixpoint search_quadKey_loop (storeKeys : list string) (quadKey : QuadKey)
    (visitor : ElementVisitor) (cancelToken : CancellationToken) : M ElementVisitor :=
  match storeKeys with
  | [] => ret visitor
  | storeKey :: rest =>
      has <- invoke storeKey (HasData quadKey)
                    (fun s => (s, storeHasData s quadKey)) ;;
      visitor' <- (if has : bool
                   then invokeSearch storeKey (SearchQuadKey quadKey cancelToken)
                          (fun s n => searchQuadKey s quadKey visitor cancelToken n)
                   else ret visitor) ;;
      search_quadKey_loop rest quadKey visitor' cancelToken
  end.

(** [GeoStoreImpl::search], quad key overload ([styleProvider] is unused). *)
Definition search_quadKey (quadKey : QuadKey) (styleProvider : StyleProvider)
    (visitor : ElementVisitor) (cancelToken : CancellationToken) : M ElementVisitor :=
  fun g =>
  search_quadKey_loop (StdMap.keys (storeMap_ g)) quadKey visitor cancelToken g.

(** The loop of [hasData]. *)
Fixpoint hasData_loop (storeKeys : list string) (quadKey : QuadKey) : M bool :=
  match storeKeys with
  | [] => ret false
  | storeKey :: rest =>
      has <- invoke storeKey (HasData quadKey)
                    (fun s => (s, storeHasData s quadKey)) ;;
      if has : bool then ret true else hasData_loop rest quadKey
  end.

(** [GeoStoreImpl::hasData] *)
Definition hasData (quadKey : QuadKey) : M bool := fun g =>
  hasData_loop (StdMap.keys (storeMap_ g)) quadKey g.

End Facade.

Arguments State : clear implicits.
Arguments M : clear implicits.

(** ** An in-memory element store *)

(** Modelled from the spec: the "in-memory stub" store of the end-to-end
    scenarios.  It keeps the retained elements with the scope each was
    stored under; the style provider decides retention. *)
Module InMemory.

Inductive Scope :=
| UnderRange (range : LodRange)
| UnderQuadKey (quadKey : QuadKey)
| UnderBoundingBox (bbox : BoundingBox) (range : LodRange).

Definition t := list (Element * Scope).

Definition coordinate_eqb (a b : GeoCoordinate) : bool :=
  Z.eqb (latitude a) (latitude b) && Z.eqb (longitude a) (longitude b).

Definition bbox_eqb (a b : BoundingBox) : bool :=
  coordinate_eqb (minPoint a) (minPoint b) && coordinate_eqb (maxPoint a) (maxPoint b).

Definition quadKey_eqb (a b : QuadKey) : bool :=
  Z.eqb (levelOfDetail a) (levelOfDetail b)
  && Z.eqb (tileX a) (tileX b) && Z.eqb (tileY a) (tileY b).

Definition range_eqb (a b : LodRange) : bool :=
  Z.eqb (lodStart a) (lodStart b) && Z.eqb (lodEnd a) (lodEnd b).

Definition inQuadKey (q : QuadKey) (entry : Element * Scope) : bool :=
  match snd entry with
  | UnderQuadKey q' => quadKey_eqb q q'
  | _ => false
  end.

Definition inBoundingBox (b : BoundingBox) (r : LodRange)
    (entry : Element * Scope) : bool :=
  match snd entry with
  | UnderBoundingBox b' r' => bbox_eqb b b' && range_eqb r r'
  | UnderRange r' => range_eqb r r'
  | UnderQuadKey _ => false
  end.

Definition put (s : t) (e : Element) (scope : Scope) (sp : StyleProvider) : t * bool :=
  if sp e then (s ++ [(e, scope)], true) else (s, false).

Definition erase (s : t) (q : QuadKey) : t :=
  filter (fun entry => negb (inQuadKey q entry)) s.

Definition eraseBox (s : t) (b : BoundingBox) (r : LodRange) : t :=
  filter (fun entry => negb (inBoundingBox b r entry)) s.

Definition has (s : t) (q : QuadKey) : bool := existsb (inQuadKey q) s.

(** A search polls the token once and, unless cancelled, shows the visitor
    the matching elements in storage order. *)
Definition visit (found : list Element) (s : t) (visitor : ElementVisitor)
    (tok : CancellationToken) (n : nat) : t * (ElementVisitor * nat) :=
  if tok n then (s, (visitor, S n)) else (s, (visitor ++ found, S n)).

#[global] Instance store : ElementStore t := {|
  storeRange s e r sp := put s e (UnderRange r) sp;
  storeQuadKey s e q sp := put s e (UnderQuadKey q) sp;
  storeBoundingBox s e b r sp := put s e (UnderBoundingBox b r) sp;
  eraseQuadKey := erase;
  eraseBoundingBox := eraseBox;
  storeHasData := has;
  searchTerms s _ _ _ b r visitor tok n :=
    visit (map fst (filter (inBoundingBox b r) s)) s visitor tok n;
  searchQuadKey s q visitor tok n :=
    visit (map fst (filter (inQuadKey q) s)) s visitor tok n
|}.

End InMemory.

(** ** Registrations and observations of an execution *)

Section Registration.
Context {Store : Type} `{ElementStore Store}.

Definition emptyState : State Store := mkState [] [] 0.

(** The state after registering the given stores, first to last. *)
Definition registerAll (stores : list (string * Store)) : State Store :=
  fold_left (fun g entry => snd (registerStore (fst entry) (Some (snd entry)) g))
            stores emptyState.

(** Every pointer of the map owns a store. *)
Definition allLive (m : StdMap.t (unique_ptr Store)) : bool :=
  forallb (fun entry => match snd entry with Some _ => true | None => false end) m.

(** What store [k] answers to [hasData(q)], if [k] is bound to a store. *)
Definition reports (m : StdMap.t (unique_ptr Store)) (q : QuadKey) (k : string) : bool :=
  match StdMap.find k m with
  | Some (Some s) => storeHasData s q
  | _ => false
  end.

(** The keys up to and including the first one that answers [true]. *)
Fixpoint askedUntil (answers : string -> bool) (ks : list string) : list string :=
  match ks with
  | [] => []
  | k :: rest => if answers k then [k] else k :: askedUntil answers rest
  end.

(** The visitor and the poll count after the stores under [ks] have run
    the predicate search one after the other. *)
Definition searchedTerms (m : StdMap.t (unique_ptr Store))
    (notTerms andTerms orTerms : string) (bbox : BoundingBox) (range : LodRange)
    (cancelToken : CancellationToken) (ks : list string)
    (start : ElementVisitor * nat) : ElementVisitor * nat :=
  fold_left (fun acc k =>
               match StdMap.find k m with
               | Some (Some s) =>
                   snd (searchTerms s notTerms andTerms orTerms bbox range
                                    (fst acc) cancelToken (snd acc))
               | _ => acc
               end) ks start.

(** The visitor and the poll count after the stores under [ks] have been
    asked for data one after the other and those that report data have run
    the quad key search. *)
Definition searchedQuadKey (m : StdMap.t (unique_ptr Store)) (quadKey : QuadKey)
    (cancelToken : CancellationToken) (ks : list string)
    (start : ElementVisitor * nat) : ElementVisitor * nat :=
  fold_left (fun acc k =>
               match StdMap.find k m with
               | Some (Some s) =>
                   if storeHasData s quadKey
                   then snd (searchQuadKey s quadKey (fst acc) cancelToken (snd acc))
                   else acc
               | _ => acc
               end) ks start.

(** The events an execution added to the trace. *)
Definition since (g g' : State Store) : list Event :=
  skipn (List.length (trace g)) (trace g').

Definition isErase (ev : Event) : bool :=
  match ev with
  | OnStore _ (EraseQuadKey _) | OnStore _ (EraseBoundingBox _ _) => true
  | _ => false
  end.

Definition isStoreOperation (ev : Event) : bool :=
  match ev with
  | OnStore _ (StoreRange _ _ _) | OnStore _ (StoreQuadKey _ _ _)
  | OnStore _ (StoreBoundingBox _ _ _ _) => true
  | _ => false
  end.

Definition isPoll (ev : Event) : bool :=
  match ev with Polled _ _ => true | _ => false end.

Definition isSearchQuadKeyOn (k : string) (ev : Event) : bool :=
  match ev with
  | OnStore k' (SearchQuadKey _ _) => String.eqb k k'
  | _ => false
  end.

Definition isHasDataOn (k : string) (ev : Event) : bool :=
  match ev with
  | OnStore k' (HasData _) => String.eqb k k'
  | _ => false
  end.

Definition isSearchTermsOn (k : string) (ev : Event) : bool :=
  match ev with
  | OnStore k' (SearchTerms _ _ _ _ _ _) => String.eqb k k'
  | _ => false
  end.

Definition count (p : Event -> bool) (evs : list Event) : nat :=
  List.length (filter p evs).

(** The store first registered under [k] in a sequence of registrations. *)
Fixpoint firstRegistered (k : string) (stores : list (string * Store)) : option Store :=
  match stores with
  | [] => None
  | (k', s) :: rest => if String.eqb k k' then Some s else firstRegistered k rest
  end.

(** The element a store call hands to a store, if the event is one. *)
Definition offeredElement (ev : Event) : list Element :=
  match ev with
  | OnStore _ (StoreRange e _ _) | OnStore _ (StoreQuadKey e _ _)
  | OnStore _ (StoreBoundingBox e _ _ _) => [e]
  | _ => []
  end.

Definition isCoordinatorPoll (ev : Event) : bool :=
  match ev with Polled Coordinator _ => true | _ => false end.

(** The store an event is a call on. *)
Definition calledStore (ev : Event) : list string :=
  match ev with OnStore k _ => [k] | Polled _ _ => [] end.

(** Whether a format has a parser in this build. *)
Definition parserAvailable (PBF_SUPPORTED_ENABLED : bool) (format : FormatType) : bool :=
  match format with
  | Pbf => PBF_SUPPORTED_ENABLED
  | _ => true
  end.

End Registration.

(** ** Concrete scenarios *)

(** The data of the end-to-end scenarios: in-memory stores registered under
    ["roads"] and ["buildings"], a source file of five elements, and tokens
    that turn cancelled after a number of polls. *)
Module Scenario.

Definition tile : QuadKey := mkQuadKey 16 35205 21489.

Definition otherTile : QuadKey := mkQuadKey 16 35206 21489.

Definition lod : LodRange := mkLodRange 1 1.

Definition box : BoundingBox :=
  mkBoundingBox (mkGeoCoordinate 0 0) (mkGeoCoordinate 10 10).

Definition element (n : Z) : Element :=
  mkElement n [(1, n)%Z] [mkGeoCoordinate (520000000 + n) (130000000 + 2 * n)].

Definition anyStyle : StyleProvider := fun _ => true.

Definition fiveElements : list Element :=
  [element 1; element 2; element 3; element 4; element 5].

(** The file system: one OSM JSON file with five elements, one OSM XML file
    whose third record is malformed; anything else reads as empty. *)
Definition files (format : FormatType) (path : string) : list ParsedRecord :=
  match format with
  | Json => if String.eqb path "data.json" then map Decoded fiveElements else []
  | Xml => if String.eqb path "broken.xml"
           then [Decoded (element 1); Decoded (element 2); Malformed]
           else []
  | _ => []
  end.

Definition neverCancelled : CancellationToken := fun _ => false.

Definition alreadyCancelled : CancellationToken := fun _ => true.

(** Cancelled from the [n]-th poll on. *)
Definition cancelledAfter (n : nat) : CancellationToken := fun poll => Nat.leb n poll.

(** One empty store. *)
Definition roads : State InMemory.t := registerAll [("roads", [])].

(** One store that already holds an element in [tile]. *)
Definition roadsWithTile : State InMemory.t :=
  registerAll [("roads", [(element 0, InMemory.UnderQuadKey tile)])].

(** Two stores, registered ["roads"] first; only ["buildings"] has data
    for [tile]. *)
Definition roadsAndBuildings : State InMemory.t :=
  registerAll
    [("roads", [(element 7, InMemory.UnderQuadKey otherTile)]);
     ("buildings", [(element 8, InMemory.UnderQuadKey tile);
                    (element 9, InMemory.UnderRange lod)])].

(** A tile no store of the scenarios has data for. *)
Definition emptyTile : QuadKey := mkQuadKey 1 0 0.

(** A registry in which an ingestion under the unregistered key
    ["missing"] has left a null pointer. *)
Definition withNullPointer : State InMemory.t :=
  mkState [("airports", Some []);
           ("missing", None);
           ("roads", Some [(element 0, InMemory.UnderQuadKey tile)])]
          [] 0.

End Scenario.

(** * Properties *)

(** ** The store map *)

Section MapFacts.
Context {V : Type}.
Implicit Types (m : StdMap.t V) (k : string) (v : V).

Lemma key_compare_spec (a b : string) :
  CompSpec eq String_as_OT.lt a b (StdMap.key_compare a b).
Proof. apply String_as_OT.compare_spec. Qed.

Lemma key_compare_refl k : StdMap.key_compare k k = Eq.
Proof.
  destruct (key_compare_spec k k) as [_ | Hlt | Hlt]; trivial;
    exfalso; exact (StrictOrder_Irreflexive k Hlt).
Qed.

Lemma key_compare_eq a b : StdMap.key_compare a b = Eq -> a = b.
Proof.
  intros Hc. destruct (key_compare_spec a b); congruence.
Qed.

Lemma key_compare_lt_trans a b c :
  StdMap.key_compare a b = Lt -> StdMap.key_compare b c = Lt ->
  StdMap.key_compare a c = Lt.
Proof.
  intros Hab Hbc.
  exact (@StrictOrder_Transitive _ _ String_as_OT.lt_strorder a b c Hab Hbc).
Qed.

Lemma key_compare_gt a b :
  StdMap.key_compare a b = Gt -> StdMap.key_compare b a = Lt.
Proof.
  intros Hc. destruct (key_compare_spec a b) as [_ | _ | Hlt]; try discriminate.
  exact Hlt.
Qed.

Lemma find_emplace_bound k v v' m :
  StdMap.find k m = Some v -> StdMap.emplace k v' m = m.
Proof.
  induction m as [| [k0 v0] m IH]; simpl; intros Hf; [discriminate |].
  destruct (StdMap.key_compare k k0); trivial; [discriminate |].
  now rewrite IH.
Qed.

Lemma keys_assign k v m : StdMap.keys (StdMap.assign k v m) = StdMap.keys m.
Proof.
  induction m as [| [k0 v0] m IH]; simpl; trivial.
  destruct (StdMap.key_compare k k0); simpl; trivial.
  now f_equal.
Qed.

Lemma find_assign_same k v v0 m :
  StdMap.find k m = Some v0 -> StdMap.find k (StdMap.assign k v m) = Some v.
Proof.
  induction m as [| [k0 w] m IH]; simpl; intros Hf; [discriminate |].
  destruct (StdMap.key_compare k k0) eqn:Hc; simpl; rewrite ?Hc; auto.
  discriminate.
Qed.

Lemma find_assign_other k k' v m :
  k <> k' -> StdMap.find k (StdMap.assign k' v m) = StdMap.find k m.
Proof.
  intros Hne. induction m as [| [k0 w] m IH]; simpl; trivial.
  destruct (StdMap.key_compare k' k0) eqn:Hc'; simpl; trivial.
  - apply key_compare_eq in Hc'. subst k0.
    destruct (StdMap.key_compare k k') eqn:Hc; trivial.
    apply key_compare_eq in Hc. contradiction.
  - now rewrite IH.
Qed.

Lemma assign_same k v m : StdMap.find k m = Some v -> StdMap.assign k v m = m.
Proof.
  induction m as [| [k0 w] m IH]; simpl; intros Hf; trivial.
  destruct (StdMap.key_compare k k0); trivial.
  - congruence.
  - now rewrite IH.
Qed.

Lemma assign_assign k v1 v2 m :
  StdMap.assign k v2 (StdMap.assign k v1 m) = StdMap.assign k v2 m.
Proof.
  induction m as [| [k0 w] m IH]; simpl; trivial.
  destruct (StdMap.key_compare k k0) eqn:Hc; simpl; rewrite Hc; trivial.
  now rewrite IH.
Qed.

Lemma ascending_head k v m k' :
  StdMap.ascending ((k, v) :: m) = true -> In k' (StdMap.keys m) ->
  StdMap.key_compare k k' = Lt.
Proof.
  simpl. intros Ha Hin. apply andb_prop in Ha as [Hall _].
  rewrite forallb_forall in Hall. specialize (Hall k' Hin).
  destruct (StdMap.key_compare k k'); trivial; discriminate.
Qed.

Lemma ascending_find k v m :
  StdMap.ascending m = true -> In (k, v) m -> StdMap.find k m = Some v.
Proof.
  induction m as [| [k0 w] m IH]; simpl; intros Ha Hin; [contradiction |].
  destruct Hin as [Heq | Hin].
  - inversion Heq; subst. now rewrite key_compare_refl.
  - assert (Hlt : StdMap.key_compare k0 k = Lt).
    { apply (ascending_head k0 w m); trivial.
      unfold StdMap.keys. now apply (in_map fst) in Hin. }
    apply andb_prop in Ha as [_ Ha].
    destruct (StdMap.key_compare k k0) eqn:Hc.
    + apply key_compare_eq in Hc. subst. rewrite key_compare_refl in Hlt. discriminate.
    + pose proof (key_compare_lt_trans _ _ _ Hc Hlt) as Hkk.
      rewrite key_compare_refl in Hkk. discriminate.
    + now apply IH.
Qed.

Lemma ascending_keys {W} m (m' : StdMap.t W) :
  StdMap.keys m' = StdMap.keys m -> StdMap.ascending m' = StdMap.ascending m.
Proof.
  revert m'. induction m as [| [k0 w] m IH]; intros [| [k1 w1] m']; simpl;
    intros Hk; try discriminate; trivial.
  injection Hk as -> Hk. fold (StdMap.keys m') in *. fold (StdMap.keys m) in *.
  now rewrite Hk, (IH m' Hk).
Qed.

Lemma ascending_NoDup m : StdMap.ascending m = true -> NoDup (StdMap.keys m).
Proof.
  induction m as [| [k0 w] m IH]; simpl; intros Ha; constructor.
  - intros Hin.
    pose proof (ascending_head k0 w m k0 Ha Hin) as Hlt.
    rewrite key_compare_refl in Hlt. discriminate.
  - apply IH. now apply andb_prop in Ha.
Qed.

Lemma keys_emplace k v m k' :
  In k' (StdMap.keys (StdMap.emplace k v m)) <-> k' = k \/ In k' (StdMap.keys m).
Proof.
  induction m as [| [k0 w] m IH]; simpl.
  - intuition.
  - destruct (StdMap.key_compare k k0) eqn:Hc; simpl.
    + apply key_compare_eq in Hc. subst. intuition.
    + intuition.
    + rewrite IH. intuition.
Qed.

Lemma emplace_ascending k v m :
  StdMap.ascending m = true -> StdMap.ascending (StdMap.emplace k v m) = true.
Proof.
  induction m as [| [k0 w] m IH]; simpl; intros Ha; trivial.
  destruct (StdMap.key_compare k k0) eqn:Hc; simpl; trivial.
  - rewrite Hc. simpl. apply andb_prop in Ha as [Hall Ha]. rewrite Hall, Ha.
    rewrite andb_true_r. apply forallb_forall. intros k' Hin.
    rewrite forallb_forall in Hall. specialize (Hall k' Hin).
    destruct (StdMap.key_compare k0 k') eqn:Hc'; try discriminate.
    now rewrite (key_compare_lt_trans _ _ _ Hc Hc').
  - apply andb_prop in Ha as [Hall Ha]. rewrite (IH Ha), andb_true_r.
    apply forallb_forall. intros k' Hin. apply keys_emplace in Hin.
    destruct Hin as [-> | Hin].
    + now rewrite (key_compare_gt _ _ Hc).
    + rewrite forallb_forall in Hall. exact (Hall k' Hin).
Qed.

End MapFacts.

(** ** Format detection *)

Section FormatDetection.
Local Open Scope string_scope.

Lemma length_app_string (a b : string) :
  String.length (a ++ b) = String.length a + String.length b.
Proof. induction a as [| c a IH]; simpl; auto. Qed.

Lemma substring_all (s : string) : substring 0 (String.length s) s = s.
Proof. induction s as [| c s IH]; simpl; trivial. now rewrite IH. Qed.

Lemma substring_skip_prefix (p s : string) (m : nat) :
  substring (String.length p) m (p ++ s) = substring 0 m s.
Proof. induction p as [| c p IH]; simpl; trivial. Qed.

Lemma substring_split (s : string) (n m : nat) :
  n + m = String.length s -> s = substring 0 n s ++ substring n m s.
Proof.
  revert n m. induction s as [| c s IH]; intros n m Hlen; simpl in *.
  - destruct n, m; simpl; trivial; discriminate.
  - destruct n as [| n]; simpl.
    + destruct m as [| m]; [discriminate |]. injection Hlen as Hlen.
      subst m. now rewrite substring_all.
    + f_equal. apply IH. lia.
Qed.

Lemma endsWith_append (p ending : string) : endsWith (p ++ ending) ending = true.
Proof.
  unfold endsWith. rewrite length_app_string.
  replace (Nat.leb (String.length ending) (String.length p + String.length ending))
    with true by (symmetry; apply Nat.leb_le; lia).
  replace (String.length p + String.length ending - String.length ending)
    with (String.length p) by lia.
  rewrite substring_skip_prefix, substring_all. apply String.eqb_refl.
Qed.

Lemma endsWith_suffix (fullString ending : string) :
  endsWith fullString ending = true <-> exists p, fullString = p ++ ending.
Proof.
  split.
  - unfold endsWith. destruct (Nat.leb _ _) eqn:Hle; [| discriminate].
    apply Nat.leb_le in Hle. intros Heq. apply String.eqb_eq in Heq.
    exists (substring 0 (String.length fullString - String.length ending) fullString).
    pose proof (substring_split fullString
                  (String.length fullString - String.length ending)
                  (String.length ending)) as Hsplit.
    rewrite Heq in Hsplit. apply Hsplit. lia.
  - intros [p ->]. apply endsWith_append.
Qed.

(** Two endings with distinct last characters cannot both end a string. *)
Lemma endsWith_exclusive (s a b : string) :
  endsWith s a = true -> endsWith s b = true ->
  String.length a <= String.length b ->
  endsWith b a = true.
Proof.
  intros Ha Hb Hlen.
  apply endsWith_suffix in Ha as [p Hp]. apply endsWith_suffix in Hb as [q Hq].
  apply endsWith_suffix. subst s. revert q Hq.
  induction p as [| c p IH]; intros q Hq; simpl in Hq.
  - exists "". simpl. destruct q as [| d q]; simpl in Hq; [congruence |].
    apply (f_equal String.length) in Hq. simpl in Hq.
    rewrite length_app_string in Hq. lia.
  - destruct q as [| d q]; simpl in Hq.
    + exists (String c p). now simpl.
    + injection Hq as _ Hq. now apply IH with q.
Qed.

(** C7. Format detection is a total function of the path alone: a path
    ending in [pbf] is [Pbf], one ending in [xml] is [Xml], one ending in
    [json] is [Json], and a path with none of these endings (the empty
    path and paths without any suffix included) is [Shape]. *)
Theorem getFormatTypeFromPath_by_suffix (path : string) :
  ((exists p, path = p ++ "pbf") -> getFormatTypeFromPath path = Pbf) /\
  ((exists p, path = p ++ "xml") -> getFormatTypeFromPath path = Xml) /\
  ((exists p, path = p ++ "json") -> getFormatTypeFromPath path = Json) /\
  (~ (exists p, path = p ++ "pbf") -> ~ (exists p, path = p ++ "xml") ->
   ~ (exists p, path = p ++ "json") -> getFormatTypeFromPath path = Shape).
Proof.
  unfold getFormatTypeFromPath.
  destruct (endsWith path "pbf") eqn:Hpbf;
    destruct (endsWith path "xml") eqn:Hxml;
    destruct (endsWith path "json") eqn:Hjson;
    repeat split; trivial; intros;
    repeat match goal with
    | Hex : exists p, path = p ++ ?e |- _ => apply endsWith_suffix in Hex
    | Hn : ~ (exists p, path = p ++ ?e) |- _ => rewrite <- endsWith_suffix in Hn
    end;
    try congruence.
  all: try (pose proof (endsWith_exclusive path "pbf" "xml" Hpbf Hxml) as Hx;
            simpl in Hx; specialize (Hx (le_n _)); discriminate).
  all: try (pose proof (endsWith_exclusive path "pbf" "json" Hpbf Hjson) as Hx;
            simpl in Hx; specialize (Hx (le_S _ _ (le_n _))); discriminate).
  all: try (pose proof (endsWith_exclusive path "xml" "json" Hxml Hjson) as Hx;
            simpl in Hx; specialize (Hx (le_S _ _ (le_n _))); discriminate).
Qed.

End FormatDetection.

(** ** Traces *)

Section TraceFacts.

Lemma count_app (p : Event -> bool) (a b : list Event) :
  count p (a ++ b) = count p a + count p b.
Proof. unfold count. now rewrite filter_app, length_app. Qed.

Lemma count_flat_map_none (p : Event -> bool) (f : string -> list Event)
    (ks : list string) :
  (forall k, In k ks -> count p (f k) = 0) -> count p (flat_map f ks) = 0.
Proof.
  induction ks as [| k ks IH]; simpl; intros Hall; trivial.
  rewrite count_app, IH, Hall; auto.
Qed.

Lemma count_flat_map_one (p : Event -> bool) (f : string -> list Event)
    (ks : list string) (k : string) :
  NoDup ks -> In k ks ->
  (forall k', In k' ks -> k' <> k -> count p (f k') = 0) ->
  count p (flat_map f ks) = count p (f k).
Proof.
  induction ks as [| k0 ks IH]; simpl; intros Hnd Hin Hother; [contradiction |].
  inversion Hnd as [| ? ? Hnotin Hnd']; subst. rewrite count_app.
  destruct Hin as [-> | Hin].
  - rewrite count_flat_map_none; [lia |].
    intros k' Hk'. apply Hother; auto. intros ->. contradiction.
  - rewrite Hother, IH; auto. intros ->. contradiction.
Qed.

Lemma NoDup_app_not_both {A} (l1 l2 : list A) (x : A) :
  NoDup (l1 ++ l2) -> In x l1 -> In x l2 -> False.
Proof.
  induction l1 as [| a l1 IH]; simpl; intros Hnd Hin1 Hin2; [contradiction |].
  inversion Hnd as [| ? ? Hnotin Hnd']; subst.
  destruct Hin1 as [-> | Hin1].
  - apply Hnotin. apply in_or_app. now right.
  - now apply IH.
Qed.

Lemma flat_map_concat_map_singleton {A B} (f : A -> B) (l : list A) :
  flat_map (fun a => [f a]) l = map f l.
Proof. induction l as [| a l IH]; simpl; congruence. Qed.

End TraceFacts.

(** ** The facade *)

Section FacadeFacts.
Context {Store : Type} `{ElementStore Store}.
Implicit Types (g : State Store) (k storeKey : string) (q quadKey : QuadKey).

Lemma state_eta g : mkState (storeMap_ g) (trace g) (polls g) = g.
Proof. now destruct g. Qed.

Lemma since_app g g' (added : list Event) :
  trace g' = trace g ++ added -> since g g' = added.
Proof.
  unfold since. intros ->.
  rewrite skipn_app, skipn_all, Nat.sub_diag. reflexivity.
Qed.

Lemma invoke_live {A} k (call : Call) (method : Store -> Store * A) g (s : Store) :
  StdMap.find k (storeMap_ g) = Some (Some s) ->
  invoke k call method g =
    (Returned (snd (method s)),
     mkState (StdMap.assign k (Some (fst (method s))) (storeMap_ g))
             (trace g ++ [OnStore k call]) (polls g)).
Proof.
  unfold invoke. intros ->. now destruct (method s).
Qed.

Lemma invokeSearch_live k (call : Call)
    (method : Store -> nat -> Store * (ElementVisitor * nat)) g (s : Store) :
  StdMap.find k (storeMap_ g) = Some (Some s) ->
  invokeSearch k call method g =
    (Returned (fst (snd (method s (polls g)))),
     mkState (StdMap.assign k (Some (fst (method s (polls g)))) (storeMap_ g))
             (trace g ++ [OnStore k call]) (snd (snd (method s (polls g))))).
Proof.
  unfold invokeSearch. intros ->. now destruct (method s (polls g)) as [s' [v n]].
Qed.

Lemma subscript_bound k g (p : unique_ptr Store) :
  StdMap.find k (storeMap_ g) = Some p -> subscript k g = (Returned tt, g).
Proof.
  intros Hf. unfold subscript. rewrite (find_emplace_bound _ _ _ _ Hf).
  now rewrite state_eta.
Qed.

Lemma allLive_find (m : StdMap.t (unique_ptr Store)) k :
  StdMap.ascending m = true -> allLive m = true -> In k (StdMap.keys m) ->
  exists s, StdMap.find k m = Some (Some s).
Proof.
  intros Hasc Hlive Hin. unfold StdMap.keys in Hin.
  apply in_map_iff in Hin as [[k' p] [Hk Hin]]. simpl in Hk. subst k'.
  unfold allLive in Hlive. rewrite forallb_forall in Hlive.
  pose proof (Hlive _ Hin) as Hp. simpl in Hp.
  destruct p as [s |]; [| discriminate].
  exists s. now apply ascending_find.
Qed.

Lemma find_Some_In {V} (m : StdMap.t V) k (v : V) :
  StdMap.find k m = Some v -> In k (StdMap.keys m).
Proof.
  induction m as [| [k0 w] m IH]; simpl; intros Hf; [discriminate |].
  destruct (StdMap.key_compare k k0) eqn:Hc.
  - left. symmetry. now apply key_compare_eq.
  - discriminate.
  - right. now apply IH.
Qed.

(** C2. Registering a store under a key that is already bound changes
    nothing: the state is the one before, the key still maps to the
    original pointer, and [hasData] and both searches run exactly as they
    would have without the second registration. *)
Theorem registerStore_bound_is_noop g storeKey
    (original newStore : unique_ptr Store) :
  StdMap.find storeKey (storeMap_ g) = Some original ->
  registerStore storeKey newStore g = (Returned tt, g) /\
  StdMap.find storeKey (storeMap_ (snd (registerStore storeKey newStore g)))
    = Some original /\
  (forall quadKey,
     hasData quadKey (snd (registerStore storeKey newStore g)) = hasData quadKey g) /\
  (forall quadKey styleProvider visitor cancelToken,
     search_quadKey quadKey styleProvider visitor cancelToken
                    (snd (registerStore storeKey newStore g))
     = search_quadKey quadKey styleProvider visitor cancelToken g) /\
  (forall notTerms andTerms orTerms bbox range visitor cancelToken,
     search_terms notTerms andTerms orTerms bbox range visitor cancelToken
                  (snd (registerStore storeKey newStore g))
     = search_terms notTerms andTerms orTerms bbox range visitor cancelToken g).
Proof.
  intros Hbound.
  assert (Hnoop : registerStore storeKey newStore g = (Returned tt, g)).
  { unfold registerStore. rewrite (find_emplace_bound _ _ _ _ Hbound).
    now rewrite state_eta. }
  rewrite Hnoop. simpl. repeat split; trivial.
Qed.

(** *** [hasData] *)

Lemma askedUntil_prefix (answers : string -> bool) (ks : list string) :
  exists rest, ks = askedUntil answers ks ++ rest.
Proof.
  induction ks as [| k ks [rest IH]]; simpl.
  - now exists [].
  - destruct (answers k).
    + now exists ks.
    + exists rest. simpl. now f_equal.
Qed.

Lemma askedUntil_stops (answers : string -> bool) (l1 l2 : list string) (k1 : string) :
  answers k1 = true ->
  exists unasked, l1 ++ [k1] = askedUntil answers (l1 ++ k1 :: l2) ++ unasked.
Proof.
  intros Hk1. induction l1 as [| k l1 [unasked IH]]; simpl.
  - rewrite Hk1. now exists [].
  - destruct (answers k).
    + now exists (l1 ++ [k1]).
    + exists unasked. simpl. now f_equal.
Qed.

Lemma hasData_loop_spec (ks : list string) q g :
  (forall k, In k ks -> exists s, StdMap.find k (storeMap_ g) = Some (Some s)) ->
  hasData_loop ks q g =
    (Returned (existsb (reports (storeMap_ g) q) ks),
     mkState (storeMap_ g)
             (trace g ++ map (fun k => OnStore k (HasData q))
                             (askedUntil (reports (storeMap_ g) q) ks))
             (polls g)).
Proof.
  revert g. induction ks as [| k ks IH]; intros g Hlive; simpl.
  - unfold ret. now rewrite app_nil_r, state_eta.
  - destruct (Hlive k (or_introl eq_refl)) as [s Hs].
    unfold bind. rewrite (invoke_live _ _ _ _ _ Hs). simpl.
    rewrite (assign_same _ _ _ Hs).
    unfold reports at 1 3. rewrite Hs.
    destruct (storeHasData s q) eqn:Hhas; simpl.
    + reflexivity.
    + rewrite IH; simpl.
      * now rewrite <- app_assoc.
      * intros k' Hk'. apply Hlive. now right.
Qed.

(** C4. On a registry whose pointers all own a store, [hasData] returns
    whether some registered store reports data for the tile; it returns
    [false] on the empty registry; it asks the stores in map order and
    stops at the first one that reports [true], so no store after that one
    is asked.  It changes nothing but the trace. *)
Theorem hasData_any_store g quadKey :
  StdMap.ascending (storeMap_ g) = true ->
  allLive (storeMap_ g) = true ->
  exists (answer : bool) (asked : list string),
    hasData quadKey g =
      (Returned answer,
       mkState (storeMap_ g)
               (trace g ++ map (fun k => OnStore k (HasData quadKey)) asked)
               (polls g)) /\
    (answer = true <->
     exists k s, StdMap.find k (storeMap_ g) = Some (Some s) /\
                 storeHasData s quadKey = true) /\
    (storeMap_ g = [] -> answer = false) /\
    (exists unasked, StdMap.keys (storeMap_ g) = asked ++ unasked) /\
    (forall before first after later,
       StdMap.keys (storeMap_ g) = before ++ first :: after ->
       reports (storeMap_ g) quadKey first = true ->
       In later after -> ~ In later asked).
Proof.
  intros Hasc Hlive.
  set (m := storeMap_ g).
  exists (existsb (reports m quadKey) (StdMap.keys m)),
         (askedUntil (reports m quadKey) (StdMap.keys m)).
  split; [| split; [| split; [| split]]].
  - unfold hasData. apply hasData_loop_spec.
    intros k Hk. now apply allLive_find.
  - rewrite existsb_exists. split.
    + intros [k [Hk Hrep]]. unfold reports in Hrep.
      destruct (StdMap.find k m) as [[s |] |] eqn:Hf; try discriminate.
      now exists k, s.
    + intros [k [s [Hf Hhas]]]. exists k. split.
      * apply find_Some_In with (Some s). exact Hf.
      * unfold reports. fold m in Hf. now rewrite Hf.
  - intros Hempty. fold m in Hempty. now rewrite Hempty.
  - apply askedUntil_prefix.
  - intros before first after later Hkeys Hfirst Hlater Hasked.
    fold m in Hkeys. rewrite Hkeys in Hasked.
    destruct (askedUntil_stops (reports m quadKey) before after first Hfirst)
      as [unasked Hpre].
    assert (Hin : In later (before ++ [first])).
    { rewrite Hpre. apply in_or_app. now left. }
    pose proof (ascending_NoDup m Hasc) as Hnd. rewrite Hkeys in Hnd.
    change (before ++ first :: after) with (before ++ [first] ++ after) in Hnd.
    rewrite app_assoc in Hnd.
    exact (NoDup_app_not_both _ _ _ Hnd Hin Hlater).
Qed.

(** *** The quad key search *)

Lemma flat_map_ext_in {A B} (f f' : A -> list B) (l : list A) :
  (forall a, In a l -> f a = f' a) -> flat_map f l = flat_map f' l.
Proof.
  induction l as [| a l IH]; simpl; intros Hext; trivial.
  rewrite Hext, IH; auto.
Qed.

Lemma reports_assign_other (m : StdMap.t (unique_ptr Store)) q k k' p :
  k' <> k -> reports (StdMap.assign k p m) q k' = reports m q k'.
Proof.
  intros Hne. unfold reports. now rewrite find_assign_other.
Qed.

Lemma search_quadKey_loop_spec (ks : list string) q (tok : CancellationToken) :
  forall (visitor : ElementVisitor) g,
  NoDup ks ->
  (forall k, In k ks -> exists s, StdMap.find k (storeMap_ g) = Some (Some s)) ->
  exists visitor' g',
    search_quadKey_loop ks q visitor tok g = (Returned visitor', g') /\
    trace g' =
      trace g ++
      flat_map (fun k => OnStore k (HasData q) ::
                         if reports (storeMap_ g) q k
                         then [OnStore k (SearchQuadKey q tok)] else []) ks /\
    StdMap.keys (storeMap_ g') = StdMap.keys (storeMap_ g) /\
    (forall k, ~ In k ks ->
       StdMap.find k (storeMap_ g') = StdMap.find k (storeMap_ g)).
Proof.
  induction ks as [| k ks IH]; intros visitor g Hnd Hlive.
  - exists visitor, g. simpl. unfold ret. rewrite app_nil_r. auto.
  - inversion Hnd as [| ? ? Hnotin Hnd']; subst.
    destruct (Hlive k (or_introl eq_refl)) as [s Hs].
    cbn [search_quadKey_loop]. unfold bind at 1.
    rewrite (invoke_live _ _ _ _ _ Hs). cbn [fst snd].
    rewrite (assign_same _ _ _ Hs).
    set (g1 := mkState (storeMap_ g) (trace g ++ [OnStore k (HasData q)]) (polls g)).
    assert (Hrep : reports (storeMap_ g) q k = storeHasData s q).
    { unfold reports. now rewrite Hs. }
    destruct (storeHasData s q) eqn:Hhas.
    + unfold bind at 1.
      assert (Hs1 : StdMap.find k (storeMap_ g1) = Some (Some s)) by exact Hs.
      rewrite (invokeSearch_live _ _ _ _ _ Hs1).
      set (r := searchQuadKey s q visitor tok (polls g1)).
      set (g2 := mkState _ _ _).
      destruct (IH (fst (snd r)) g2 Hnd') as (v' & g' & Hrun & Htrace & Hkeys & Hfind).
      { intros k' Hk'. simpl.
        rewrite find_assign_other by (intros ->; contradiction).
        apply Hlive. now right. }
      exists v', g'. split; [exact Hrun |]. split; [| split].
      * rewrite Htrace. simpl. rewrite Hrep, <- !app_assoc. simpl.
        do 3 f_equal. apply flat_map_ext_in. intros k' Hk'.
        rewrite reports_assign_other by (intros ->; contradiction). reflexivity.
      * rewrite Hkeys. simpl. apply keys_assign.
      * intros k' Hk'. rewrite Hfind by (intros Hin; apply Hk'; now right).
        simpl. apply find_assign_other. intros ->. apply Hk'. now left.
    + unfold bind at 1. unfold ret at 1.
      destruct (IH visitor g1 Hnd') as (v' & g' & Hrun & Htrace & Hkeys & Hfind).
      { intros k' Hk'. simpl. apply Hlive. now right. }
      exists v', g'. split; [exact Hrun |]. split; [| split].
      * rewrite Htrace. simpl. rewrite Hrep, <- !app_assoc. reflexivity.
      * exact Hkeys.
      * intros k' Hk'. rewrite Hfind by (intros Hin; apply Hk'; now right).
        reflexivity.
Qed.

Lemma count_visit_other (p : Event -> bool) k' q (b : bool) (tok : CancellationToken) :
  p (OnStore k' (HasData q)) = false ->
  p (OnStore k' (SearchQuadKey q tok)) = false ->
  count p (OnStore k' (HasData q) ::
           if b then [OnStore k' (SearchQuadKey q tok)] else []) = 0.
Proof.
  intros H1 H2. unfold count. simpl. rewrite H1.
  destruct b; simpl; rewrite ?H2; reflexivity.
Qed.

Lemma searchedQuadKey_assign_other (m : StdMap.t (unique_ptr Store)) q
    (tok : CancellationToken) (ks : list string) k p start :
  ~ In k ks ->
  searchedQuadKey (StdMap.assign k p m) q tok ks start
  = searchedQuadKey m q tok ks start.
Proof.
  unfold searchedQuadKey. revert start.
  induction ks as [| k' ks IH]; intros start Hnotin; simpl; trivial.
  rewrite find_assign_other by (intros ->; apply Hnotin; now left).
  apply IH. intros Hin. apply Hnotin. now right.
Qed.

(** What the loop of the quad key search computes: the visitor and the
    poll count come out of the searches of the stores that report data,
    run in order, and each store is left as its own search leaves it. *)
Lemma search_quadKey_loop_result (ks : list string) q (tok : CancellationToken) :
  forall (visitor : ElementVisitor) g,
  NoDup ks ->
  (forall k, In k ks -> exists s, StdMap.find k (storeMap_ g) = Some (Some s)) ->
  fst (search_quadKey_loop ks q visitor tok g)
    = Returned (fst (searchedQuadKey (storeMap_ g) q tok ks (visitor, polls g))) /\
  polls (snd (search_quadKey_loop ks q visitor tok g))
    = snd (searchedQuadKey (storeMap_ g) q tok ks (visitor, polls g)) /\
  (forall before k after s,
     ks = before ++ k :: after ->
     StdMap.find k (storeMap_ g) = Some (Some s) ->
     StdMap.find k (storeMap_ (snd (search_quadKey_loop ks q visitor tok g)))
     = Some (Some
         (if storeHasData s q
          then fst (searchQuadKey s q
                      (fst (searchedQuadKey (storeMap_ g) q tok before
                                            (visitor, polls g)))
                      tok
                      (snd (searchedQuadKey (storeMap_ g) q tok before
                                            (visitor, polls g))))
          else s))).
Proof.
  induction ks as [| k0 ks IH]; intros visitor g Hnd Hlive.
  - simpl. repeat split. intros [| b before] k after s Heq; discriminate.
  - inversion Hnd as [| ? ? Hnotin Hnd']; subst.
    destruct (Hlive k0 (or_introl eq_refl)) as [s0 Hs0].
    cbn [search_quadKey_loop]. unfold bind at 1 3 5.
    rewrite (invoke_live _ _ _ _ _ Hs0). cbn [fst snd].
    rewrite (assign_same _ _ _ Hs0).
    set (g1 := mkState (storeMap_ g) (trace g ++ [OnStore k0 (HasData q)]) (polls g)).
    assert (Hstep : forall rest start,
      searchedQuadKey (storeMap_ g) q tok (k0 :: rest) start
      = searchedQuadKey (storeMap_ g) q tok rest
          (if storeHasData s0 q
           then snd (searchQuadKey s0 q (fst start) tok (snd start))
           else start)).
    { intros rest start. unfold searchedQuadKey. cbn [fold_left]. now rewrite Hs0. }
    destruct (storeHasData s0 q) eqn:Hhas.
    + unfold bind at 1 2 3.
      assert (Hs1 : StdMap.find k0 (storeMap_ g1) = Some (Some s0)) by exact Hs0.
      rewrite (invokeSearch_live _ _ _ _ _ Hs1).
      set (r := searchQuadKey s0 q visitor tok (polls g1)).
      set (g2 := mkState _ _ _).
      assert (Hlive2 : forall k, In k ks ->
                exists s, StdMap.find k (storeMap_ g2) = Some (Some s)).
      { intros k' Hk'. cbn [g2 storeMap_].
        rewrite find_assign_other by (intros ->; contradiction).
        apply Hlive. now right. }
      destruct (IH (fst (snd r)) g2 Hnd' Hlive2) as (Hout & Hpolls & Hstores).
      assert (Hacc : forall rest, ~ In k0 rest ->
        searchedQuadKey (storeMap_ g2) q tok rest (fst (snd r), polls g2)
        = searchedQuadKey (storeMap_ g) q tok (k0 :: rest) (visitor, polls g)).
      { intros rest Hrest. rewrite Hstep. cbn [g2 storeMap_ polls fst snd].
        rewrite searchedQuadKey_assign_other by exact Hrest.
        change (searchQuadKey s0 q visitor tok (polls g)) with r.
        now destruct (snd r). }
      rewrite <- (Hacc ks Hnotin). split; [exact Hout |]. split; [exact Hpolls |].
      intros before k after s Heq Hs. destruct before as [| b before].
      * injection Heq as <- <-. rewrite Hs0 in Hs. injection Hs as <-.
        rewrite Hhas.
        destruct (search_quadKey_loop_spec ks q tok (fst (snd r)) g2 Hnd' Hlive2)
          as (v' & g' & Hrun & _ & _ & Hkeep).
        rewrite Hrun. cbn [snd]. rewrite (Hkeep k0 Hnotin).
        cbn [g2 storeMap_]. unfold searchedQuadKey. cbn [fold_left fst snd].
        now apply find_assign_same with (Some s0).
      * injection Heq as <- Heq.
        assert (Hin : In k ks) by (rewrite Heq; apply in_or_app; right; now left).
        assert (Hne : k <> k0) by (intros ->; contradiction).
        assert (Hs2 : StdMap.find k (storeMap_ g2) = Some (Some s)).
        { cbn [g2 storeMap_]. now rewrite find_assign_other. }
        rewrite (Hstores before k after s Heq Hs2).
        rewrite Hacc; [reflexivity |].
        intros Hb. apply Hnotin. rewrite Heq. apply in_or_app. now left.
    + unfold bind at 1 2 3. unfold ret at 1 2 3.
      assert (Hlive1 : forall k, In k ks ->
                exists s, StdMap.find k (storeMap_ g1) = Some (Some s)).
      { intros k' Hk'. apply Hlive. now right. }
      destruct (IH visitor g1 Hnd' Hlive1) as (Hout & Hpolls & Hstores).
      rewrite !Hstep. split; [exact Hout |]. split; [exact Hpolls |].
      intros before k after s Heq Hs. destruct before as [| b before].
      * injection Heq as <- <-. rewrite Hs0 in Hs. injection Hs as <-.
        rewrite Hhas.
        destruct (search_quadKey_loop_spec ks q tok visitor g1 Hnd' Hlive1)
          as (v' & g' & Hrun & _ & _ & Hkeep).
        rewrite Hrun. cbn [snd]. rewrite (Hkeep k0 Hnotin). exact Hs0.
      * injection Heq as <- Heq. rewrite Hstep.
        exact (Hstores before k after s Heq Hs).
Qed.

(** C3. On a registry whose pointers all own a store, the quad key search
    returns, and for every registered store the number of tile-scoped
    search calls it receives is one if its [hasData(quadKey)] is true and
    zero otherwise; each store is asked [hasData] once, and nothing else
    is called: every call is a [hasData] or a search for the same quad key
    (with the caller's token) on a registered store.  The searches are
    really run: the visitor and the poll count returned are those that the
    searches of the stores with data produce, one after the other in key
    order, and afterwards each store with data is what its own search made
    of it while each store without data is as it was. *)
Theorem search_quadKey_only_stores_with_data g quadKey
    (styleProvider : StyleProvider) (visitor : ElementVisitor)
    (cancelToken : CancellationToken) :
  StdMap.ascending (storeMap_ g) = true ->
  allLive (storeMap_ g) = true ->
  exists visitor' g',
    search_quadKey quadKey styleProvider visitor cancelToken g
      = (Returned visitor', g') /\
    StdMap.keys (storeMap_ g') = StdMap.keys (storeMap_ g) /\
    (forall k s,
       StdMap.find k (storeMap_ g) = Some (Some s) ->
       count (isSearchQuadKeyOn k) (since g g')
         = (if storeHasData s quadKey then 1 else 0) /\
       count (isHasDataOn k) (since g g') = 1) /\
    (forall ev, In ev (since g g') ->
       exists k, In k (StdMap.keys (storeMap_ g)) /\
         (ev = OnStore k (HasData quadKey) \/
          ev = OnStore k (SearchQuadKey quadKey cancelToken) /\
          reports (storeMap_ g) quadKey k = true)) /\
    (visitor', polls g') =
      searchedQuadKey (storeMap_ g) quadKey cancelToken
                      (StdMap.keys (storeMap_ g)) (visitor, polls g) /\
    (forall before k after s,
       StdMap.keys (storeMap_ g) = before ++ k :: after ->
       StdMap.find k (storeMap_ g) = Some (Some s) ->
       StdMap.find k (storeMap_ g') =
         Some (Some
           (if storeHasData s quadKey
            then fst (searchQuadKey s quadKey
                        (fst (searchedQuadKey (storeMap_ g) quadKey cancelToken
                                              before (visitor, polls g)))
                        cancelToken
                        (snd (searchedQuadKey (storeMap_ g) quadKey cancelToken
                                              before (visitor, polls g))))
            else s))).
Proof.
  intros Hasc Hlive.
  pose proof (ascending_NoDup _ Hasc) as Hnd.
  assert (Hfound : forall k, In k (StdMap.keys (storeMap_ g)) ->
            exists s, StdMap.find k (storeMap_ g) = Some (Some s))
    by (intros k Hk; now apply allLive_find).
  destruct (search_quadKey_loop_spec (StdMap.keys (storeMap_ g)) quadKey cancelToken
              visitor g Hnd Hfound) as (v' & g' & Hrun & Htrace & Hkeys & _).
  destruct (search_quadKey_loop_result (StdMap.keys (storeMap_ g)) quadKey cancelToken
              visitor g Hnd Hfound) as (Hout & Hpolls & Hstores).
  rewrite Hrun in Hout, Hpolls, Hstores. cbn [fst snd] in Hout, Hpolls, Hstores.
  exists v', g'. split; [exact Hrun |]. split; [exact Hkeys |].
  rewrite (since_app _ _ _ Htrace). split; [| split; [| split]].
  - intros k s Hf.
    pose proof (find_Some_In _ _ _ Hf) as Hin.
    assert (Hrep : reports (storeMap_ g) quadKey k = storeHasData s quadKey).
    { unfold reports. now rewrite Hf. }
    split.
    + rewrite (count_flat_map_one _ _ _ k Hnd Hin).
      * rewrite Hrep. unfold count. simpl.
        destruct (storeHasData s quadKey); simpl; rewrite ?String.eqb_refl; reflexivity.
      * intros k' _ Hne. apply count_visit_other; simpl; trivial.
        apply String.eqb_neq. congruence.
    + rewrite (count_flat_map_one _ _ _ k Hnd Hin).
      * unfold count. simpl. rewrite String.eqb_refl.
        destruct (reports (storeMap_ g) quadKey k); reflexivity.
      * intros k' _ Hne. apply count_visit_other; simpl; trivial.
        apply String.eqb_neq. congruence.
  - intros ev Hev. apply in_flat_map in Hev as [k [Hk Hev]].
    exists k. split; [exact Hk |].
    destruct Hev as [<- | Hev]; [now left |].
    destruct (reports (storeMap_ g) quadKey k) eqn:Hrep; [| contradiction].
    destruct Hev as [<- | []]. right. now split.
  - injection Hout as ->. rewrite Hpolls.
    now destruct (searchedQuadKey _ _ _ _ _).
  - exact Hstores.
Qed.

(** *** The predicate search *)

Lemma searchedTerms_assign_other (m : StdMap.t (unique_ptr Store))
    (notTerms andTerms orTerms : string) bbox range (tok : CancellationToken)
    (ks : list string) k p start :
  ~ In k ks ->
  searchedTerms (StdMap.assign k p m) notTerms andTerms orTerms bbox range tok ks start
  = searchedTerms m notTerms andTerms orTerms bbox range tok ks start.
Proof.
  unfold searchedTerms. revert start.
  induction ks as [| k' ks IH]; intros start Hnotin; simpl; trivial.
  rewrite find_assign_other by (intros ->; apply Hnotin; now left).
  apply IH. intros Hin. apply Hnotin. now right.
Qed.

Lemma search_terms_loop_spec (ks : list string)
    (notTerms andTerms orTerms : string) bbox range (tok : CancellationToken) :
  forall (visitor : ElementVisitor) g,
  NoDup ks ->
  (forall k, In k ks -> exists s, StdMap.find k (storeMap_ g) = Some (Some s)) ->
  exists g',
    search_terms_loop ks notTerms andTerms orTerms bbox range visitor tok g
      = (Returned (fst (searchedTerms (storeMap_ g) notTerms andTerms orTerms
                                      bbox range tok ks (visitor, polls g))), g') /\
    polls g' = snd (searchedTerms (storeMap_ g) notTerms andTerms orTerms
                                  bbox range tok ks (visitor, polls g)) /\
    trace g' =
      trace g ++
      map (fun k => OnStore k (SearchTerms notTerms andTerms orTerms bbox range tok)) ks /\
    StdMap.keys (storeMap_ g') = StdMap.keys (storeMap_ g).
Proof.
  induction ks as [| k ks IH]; intros visitor g Hnd Hlive.
  - exists g. simpl. unfold ret. rewrite app_nil_r. auto.
  - inversion Hnd as [| ? ? Hnotin Hnd']; subst.
    destruct (Hlive k (or_introl eq_refl)) as [s Hs].
    cbn [search_terms_loop]. unfold bind at 1.
    rewrite (invokeSearch_live _ _ _ _ _ Hs).
    set (r := searchTerms s notTerms andTerms orTerms bbox range visitor tok (polls g)).
    set (g1 := mkState _ _ _).
    destruct (IH (fst (snd r)) g1 Hnd') as (g' & Hrun & Hpolls & Htrace & Hkeys).
    { intros k' Hk'. simpl.
      rewrite find_assign_other by (intros ->; contradiction).
      apply Hlive. now right. }
    assert (Hstep :
      searchedTerms (storeMap_ g) notTerms andTerms orTerms bbox range tok (k :: ks)
                    (visitor, polls g)
      = searchedTerms (storeMap_ g1) notTerms andTerms orTerms bbox range tok ks
                      (fst (snd r), polls g1)).
    { unfold g1 at 1. cbn [storeMap_].
      rewrite searchedTerms_assign_other by exact Hnotin.
      unfold searchedTerms at 1. cbn [fold_left]. rewrite Hs. cbn [fst snd].
      fold r. destruct (snd r); reflexivity. }
    exists g'. rewrite Hstep. split; [exact Hrun |]. split; [exact Hpolls |]. split.
    + rewrite Htrace. simpl. now rewrite <- app_assoc.
    + rewrite Hkeys. simpl. apply keys_assign.
Qed.

(** C9, as the code has it. On a registry whose pointers all own a store,
    the predicate search returns after calling the predicate search of
    every registered store exactly once, with the caller's five arguments
    and token, in ascending key order (the iteration order of the map);
    the visitor is handed from store to store; the facade itself never
    polls the token. *)
Theorem search_terms_every_store_in_key_order g
    (notTerms andTerms orTerms : string) (bbox : BoundingBox) (range : LodRange)
    (visitor : ElementVisitor) (cancelToken : CancellationToken) :
  StdMap.ascending (storeMap_ g) = true ->
  allLive (storeMap_ g) = true ->
  exists visitor' g',
    search_terms notTerms andTerms orTerms bbox range visitor cancelToken g
      = (Returned visitor', g') /\
    since g g' =
      map (fun k => OnStore k (SearchTerms notTerms andTerms orTerms bbox range
                                           cancelToken))
          (StdMap.keys (storeMap_ g)) /\
    StdMap.ascending (storeMap_ g') = true /\
    (forall k, In k (StdMap.keys (storeMap_ g)) ->
               count (isSearchTermsOn k) (since g g') = 1) /\
    count isPoll (since g g') = 0 /\
    (visitor', polls g') =
      searchedTerms (storeMap_ g) notTerms andTerms orTerms bbox range cancelToken
                    (StdMap.keys (storeMap_ g)) (visitor, polls g).
Proof.
  intros Hasc Hlive.
  pose proof (ascending_NoDup _ Hasc) as Hnd.
  destruct (search_terms_loop_spec (StdMap.keys (storeMap_ g))
              notTerms andTerms orTerms bbox range cancelToken visitor g Hnd)
    as (g' & Hrun & Hpolls & Htrace & Hkeys).
  { intros k Hk. now apply allLive_find. }
  eexists _, g'. split; [exact Hrun |].
  rewrite (since_app _ _ _ Htrace).
  split; [reflexivity |]. split; [| split; [| split]].
  - rewrite (ascending_keys _ _ Hkeys). exact Hasc.
  - intros k Hk. rewrite <- flat_map_concat_map_singleton.
    rewrite (count_flat_map_one _ _ _ k Hnd Hk).
    + unfold count. simpl. now rewrite String.eqb_refl.
    + intros k' _ Hne. unfold count. simpl.
      replace (String.eqb k k') with false; trivial.
      symmetry. apply String.eqb_neq. congruence.
  - rewrite <- flat_map_concat_map_singleton.
    apply count_flat_map_none. intros k _. reflexivity.
  - rewrite Hpolls. now destruct (searchedTerms _ _ _ _ _ _ _ _ _).
Qed.

(** *** Ingestion runs *)

(** What a run of the data visitor over a store's functor leaves behind:
    a poll and a store call per element offered, then the polls that ended
    the run. *)
Lemma parseAndComplete_invoke k (mkCall : Element -> Call)
    (method : Element -> Store -> Store * bool) (tok : CancellationToken) :
  forall (records : list ParsedRecord) (bbox : BoundingBox) g (s : Store),
  StdMap.find k (storeMap_ g) = Some (Some s) ->
  exists (offered : list Element) (ending : list Event) outcome g',
    parseAndComplete records (fun e => invoke k (mkCall e) (method e)) tok bbox g
      = (outcome, g') /\
    trace g' =
      trace g ++
      flat_map (fun e => [Polled DataVisitor false; OnStore k (mkCall e)]) offered ++
      ending /\
    Forall (fun ev => exists answer, ev = Polled DataVisitor answer) ending /\
    storeMap_ g' =
      StdMap.assign k (Some (fold_left (fun s e => fst (method e s)) offered s))
                    (storeMap_ g) /\
    (exists rest, records = map Decoded offered ++ rest) /\
    (forall b, outcome = Returned b -> b = fold_left expandElement offered bbox) /\
    (forall e, outcome = Thrown e -> e = ParserError).
Proof.
  induction records as [| record rest IH]; intros bbox g s Hs.
  - exists [], [], (Returned bbox), g. simpl. unfold ret.
    rewrite app_nil_r, (assign_same _ _ _ Hs).
    repeat split; trivial; try congruence. now exists [].
  - cbn [parseAndComplete]. unfold bind at 1, isCancelled at 1.
    set (g0 := mkState (storeMap_ g)
                       (trace g ++ [Polled DataVisitor (tok (polls g))])
                       (S (polls g))).
    destruct (tok (polls g)) eqn:Hpoll.
    + exists [], [Polled DataVisitor true], (Returned bbox), g0.
      unfold ret. simpl. rewrite (assign_same _ _ _ Hs).
      repeat split; trivial; try congruence.
      * constructor; [now exists true | constructor].
      * now exists (record :: rest).
    + destruct record as [element |].
      * unfold bind at 1.
        assert (Hs0 : StdMap.find k (storeMap_ g0) = Some (Some s)) by exact Hs.
        rewrite (invoke_live _ _ _ _ _ Hs0).
        set (g1 := mkState _ _ _).
        assert (Hs1 : StdMap.find k (storeMap_ g1)
                      = Some (Some (fst (method element s)))).
        { simpl. now apply find_assign_same with (Some s). }
        destruct (IH (expandElement bbox element) g1 _ Hs1)
          as (offered & ending & outcome & g' & Hrun & Htrace & Hend & Hmap
              & [rest' Hrest] & Hbox & Hthrow).
        exists (element :: offered), ending, outcome, g'.
        split; [exact Hrun |]. split; [| split; [exact Hend | split; [| split]]].
        -- rewrite Htrace. simpl. rewrite <- !app_assoc. reflexivity.
        -- rewrite Hmap. simpl. apply assign_assign.
        -- exists rest'. simpl. now rewrite Hrest.
        -- split; [exact Hbox | exact Hthrow].
      * exists [], [Polled DataVisitor false], (Thrown ParserError), g0.
        unfold throw. simpl. rewrite (assign_same _ _ _ Hs).
        repeat split; trivial; try congruence.
        -- constructor; [now exists false | constructor].
        -- now exists (Malformed :: rest).
Qed.

Lemma parseAndComplete_uncancelled k (mkCall : Element -> Call)
    (method : Element -> Store -> Store * bool) (tok : CancellationToken) :
  (forall n, tok n = false) ->
  forall (es : list Element) (bbox : BoundingBox) g (s : Store),
  StdMap.find k (storeMap_ g) = Some (Some s) ->
  parseAndComplete (map Decoded es) (fun e => invoke k (mkCall e) (method e)) tok bbox g
  = (Returned (fold_left expandElement es bbox),
     mkState (StdMap.assign k (Some (fold_left (fun s e => fst (method e s)) es s))
                            (storeMap_ g))
             (trace g ++
              flat_map (fun e => [Polled DataVisitor false; OnStore k (mkCall e)]) es)
             (polls g + List.length es)).
Proof.
  intros Hnever. induction es as [| e es IH]; intros bbox g s Hs.
  - simpl. unfold ret. rewrite app_nil_r, Nat.add_0_r, (assign_same _ _ _ Hs).
    now rewrite state_eta.
  - cbn [map parseAndComplete]. unfold bind at 1, isCancelled at 1.
    rewrite Hnever. unfold bind at 1.
    set (g0 := mkState (storeMap_ g) (trace g ++ [Polled DataVisitor false])
                       (S (polls g))).
    assert (Hs0 : StdMap.find k (storeMap_ g0) = Some (Some s)) by exact Hs.
    rewrite (invoke_live _ _ _ _ _ Hs0).
    set (g1 := mkState _ _ _).
    assert (Hs1 : StdMap.find k (storeMap_ g1) = Some (Some (fst (method e s)))).
    { simpl. now apply find_assign_same with (Some s). }
    rewrite (IH (expandElement bbox e) g1 _ Hs1). simpl.
    rewrite assign_assign, <- !app_assoc, Nat.add_succ_r. reflexivity.
Qed.

Variable PBF_SUPPORTED_ENABLED : bool.
Variable readRecords : FormatType -> string -> list ParsedRecord.

Lemma add_path_available (path : string) (tok : CancellationToken)
    (functor : Element -> M Store bool) :
  parserAvailable PBF_SUPPORTED_ENABLED (getFormatTypeFromPath path) = true ->
  add_path PBF_SUPPORTED_ENABLED readRecords path tok functor
  = parseAndComplete (readRecords (getFormatTypeFromPath path) path) functor tok
                     emptyBoundingBox.
Proof.
  unfold add_path, parserAvailable.
  destruct (getFormatTypeFromPath path); trivial. now intros ->.
Qed.

Lemma add_path_unavailable (path : string) (tok : CancellationToken)
    (functor : Element -> M Store bool) g :
  parserAvailable PBF_SUPPORTED_ENABLED (getFormatTypeFromPath path) = false ->
  add_path PBF_SUPPORTED_ENABLED readRecords path tok functor g
  = (Thrown (domain_error "Not supported."), g).
Proof.
  unfold add_path, parserAvailable.
  destruct (getFormatTypeFromPath path); try discriminate. now intros ->.
Qed.

Lemma count_none (p : Event -> bool) (evs : list Event) :
  (forall ev, In ev evs -> p ev = false) -> count p evs = 0.
Proof.
  unfold count. induction evs as [| ev evs IH]; simpl; intros Hall; trivial.
  rewrite (Hall ev (or_introl eq_refl)). apply IH. auto.
Qed.

Lemma run_events_calls k (mkCall : Element -> Call) (offered : list Element)
    (ending : list Event) :
  Forall (fun ev => exists answer, ev = Polled DataVisitor answer) ending ->
  filter (fun ev => negb (isPoll ev))
         (flat_map (fun e => [Polled DataVisitor false; OnStore k (mkCall e)]) offered
          ++ ending)
  = map (fun e => OnStore k (mkCall e)) offered.
Proof.
  intros Hend. rewrite filter_app.
  replace (filter (fun ev => negb (isPoll ev)) ending) with (@nil Event).
  - rewrite app_nil_r. induction offered as [| e offered IH]; simpl; congruence.
  - symmetry. induction Hend as [| ev ending [answer ->] _ IH]; simpl; trivial.
Qed.

Lemma run_events_kinds k (mkCall : Element -> Call) (offered : list Element)
    (ending : list Event) (ev : Event) :
  Forall (fun ev => exists answer, ev = Polled DataVisitor answer) ending ->
  In ev (flat_map (fun e => [Polled DataVisitor false; OnStore k (mkCall e)]) offered
         ++ ending) ->
  (exists answer, ev = Polled DataVisitor answer) \/
  (exists e, In e offered /\ ev = OnStore k (mkCall e)).
Proof.
  intros Hend Hin. apply in_app_or in Hin as [Hin | Hin].
  - apply in_flat_map in Hin as [e [He [<- | [<- | []]]]].
    + left. now exists false.
    + right. now exists e.
  - left. rewrite Forall_forall in Hend. now apply Hend.
Qed.

(** The three path overloads share one shape: bind the store reference,
    run the dispatcher over a functor that calls the store, poll the token
    and erase if it answers cancelled.  Every execution from a state where
    the key owns a store ends in one of three ways. *)
Lemma ingest_outcomes k (path : string) (tok : CancellationToken)
    (mkCall : Element -> Call) (method : Element -> Store -> Store * bool)
    (eraseCall : BoundingBox -> Call)
    (eraseMethod : BoundingBox -> Store -> Store * unit)
    g (s : Store) (outcome : Outcome unit) g' :
  StdMap.find k (storeMap_ g) = Some (Some s) ->
  bind (subscript k) (fun _ =>
    bind (add_path PBF_SUPPORTED_ENABLED readRecords path tok
                   (fun e => invoke k (mkCall e) (method e)))
         (fun bbox =>
            bind (isCancelled Coordinator tok)
                 (fun cancelled : bool =>
                    if cancelled
                    then invoke k (eraseCall bbox) (eraseMethod bbox)
                    else ret tt))) g
  = (outcome, g') ->
  exists (offered : list Element) (run : list Event),
    (forall ev, In ev run ->
       (exists answer, ev = Polled DataVisitor answer) \/
       (exists e, In e offered /\ ev = OnStore k (mkCall e))) /\
    filter (fun ev => negb (isPoll ev)) run
      = map (fun e => OnStore k (mkCall e)) offered /\
    ((exists rest,
        readRecords (getFormatTypeFromPath path) path = map Decoded offered ++ rest) \/
     (offered = [] /\ outcome = Thrown (domain_error "Not supported."))) /\
    ((outcome = Returned tt /\
      since g g' =
        run ++ [Polled Coordinator true;
                OnStore k (eraseCall (fold_left expandElement offered emptyBoundingBox))] /\
      storeMap_ g' =
        StdMap.assign k
          (Some (fst (eraseMethod (fold_left expandElement offered emptyBoundingBox)
                                  (fold_left (fun s e => fst (method e s)) offered s))))
          (storeMap_ g))
     \/
     (outcome = Returned tt /\
      since g g' = run ++ [Polled Coordinator false] /\
      storeMap_ g' =
        StdMap.assign k (Some (fold_left (fun s e => fst (method e s)) offered s))
                      (storeMap_ g))
     \/
     (exists e, outcome = Thrown e /\
      since g g' = run /\
      storeMap_ g' =
        StdMap.assign k (Some (fold_left (fun s e => fst (method e s)) offered s))
                      (storeMap_ g))).
Proof.
  intros Hs. unfold bind at 1. rewrite (subscript_bound _ _ _ Hs).
  destruct (parserAvailable PBF_SUPPORTED_ENABLED (getFormatTypeFromPath path))
    eqn:Havail.
  - rewrite (add_path_available _ _ _ Havail).
    destruct (parseAndComplete_invoke k mkCall method tok
                (readRecords (getFormatTypeFromPath path) path)
                emptyBoundingBox g s Hs)
      as (offered & ending & out & g1 & Hrun & Htrace & Hend & Hmap
          & [rest Hrest] & Hbox & Hthrow).
    unfold bind at 1. rewrite Hrun.
    set (run := flat_map (fun e => [Polled DataVisitor false; OnStore k (mkCall e)])
                         offered ++ ending) in *.
    assert (Hkinds : forall ev, In ev run ->
              (exists answer, ev = Polled DataVisitor answer) \/
              (exists e, In e offered /\ ev = OnStore k (mkCall e)))
      by (intros ev; now apply run_events_kinds).
    assert (Hcalls : filter (fun ev => negb (isPoll ev)) run
                     = map (fun e => OnStore k (mkCall e)) offered)
      by now apply run_events_calls.
    destruct out as [bbox | e].
    + rewrite (Hbox bbox eq_refl). clear Hbox.
      unfold bind at 1, isCancelled at 1.
      set (g2 := mkState (storeMap_ g1)
                         (trace g1 ++ [Polled Coordinator (tok (polls g1))])
                         (S (polls g1))).
      assert (Hs2 : StdMap.find k (storeMap_ g2)
                    = Some (Some (fold_left (fun s e => fst (method e s)) offered s))).
      { simpl. rewrite Hmap. now apply find_assign_same with (Some s). }
      destruct (tok (polls g1)) eqn:Hpoll.
      * rewrite (invoke_live _ _ _ _ _ Hs2). intros Heq.
        injection Heq as <- <-. exists offered, run.
        split; [exact Hkinds |]. split; [exact Hcalls |].
        split; [left; now exists rest |]. left.
        split; [now destruct (snd (eraseMethod _ _)) |]. split.
        -- apply since_app. simpl. rewrite Htrace, <- !app_assoc. reflexivity.
        -- simpl. rewrite Hmap. apply assign_assign.
      * unfold ret. intros Heq. injection Heq as <- <-. exists offered, run.
        split; [exact Hkinds |]. split; [exact Hcalls |].
        split; [left; now exists rest |]. right. left.
        split; [reflexivity |]. split.
        -- apply since_app. simpl. rewrite Htrace, <- !app_assoc. reflexivity.
        -- exact Hmap.
    + intros Heq. injection Heq as <- <-. exists offered, run.
      split; [exact Hkinds |]. split; [exact Hcalls |].
      split; [left; now exists rest |]. right. right. exists e.
      split; [reflexivity |]. split; [| exact Hmap].
      apply since_app. rewrite Htrace. reflexivity.
  - unfold bind at 1. rewrite (add_path_unavailable _ _ _ _ Havail).
    intros Heq. injection Heq as <- <-.
    exists [], []. split; [intros ev [] |]. split; [reflexivity |].
    split; [now right |].
    right. right. exists (domain_error "Not supported.").
    split; [reflexivity |]. split.
    + apply since_app. now rewrite app_nil_r.
    + simpl. symmetry. now apply assign_same.
Qed.

(** The same executions, seen as the dispatcher's run followed by the
    coordinator's poll: the call of [add] over the store's functor is run
    from the state the overload starts in; what it returns and the state
    it leaves are what the rest of the overload continues from. *)
Lemma ingest_composed k (path : string) (tok : CancellationToken)
    (mkCall : Element -> Call) (method : Element -> Store -> Store * bool)
    (eraseCall : BoundingBox -> Call)
    (eraseMethod : BoundingBox -> Store -> Store * unit)
    g (s : Store) (outcome : Outcome unit) g' :
  StdMap.find k (storeMap_ g) = Some (Some s) ->
  bind (subscript k) (fun _ =>
    bind (add_path PBF_SUPPORTED_ENABLED readRecords path tok
                   (fun e => invoke k (mkCall e) (method e)))
         (fun bbox =>
            bind (isCancelled Coordinator tok)
                 (fun cancelled : bool =>
                    if cancelled
                    then invoke k (eraseCall bbox) (eraseMethod bbox)
                    else ret tt))) g
  = (outcome, g') ->
  exists (runOutcome : Outcome BoundingBox) (gRun : State Store)
         (offered : list Element) (ending : list Event),
    add_path PBF_SUPPORTED_ENABLED readRecords path tok
             (fun e => invoke k (mkCall e) (method e)) g = (runOutcome, gRun) /\
    since g gRun =
      flat_map (fun e => [Polled DataVisitor false; OnStore k (mkCall e)]) offered
      ++ ending /\
    Forall (fun ev => exists answer, ev = Polled DataVisitor answer) ending /\
    storeMap_ gRun =
      StdMap.assign k (Some (fold_left (fun s e => fst (method e s)) offered s))
                    (storeMap_ g) /\
    ((exists rest,
        readRecords (getFormatTypeFromPath path) path = map Decoded offered ++ rest) \/
     (offered = [] /\ runOutcome = Thrown (domain_error "Not supported."))) /\
    match runOutcome with
    | Thrown e => outcome = Thrown e /\ g' = gRun
    | Returned bbox =>
        bbox = fold_left expandElement offered emptyBoundingBox /\
        outcome = Returned tt /\
        polls g' = S (polls gRun) /\
        ((since g g' =
            since g gRun ++ [Polled Coordinator true; OnStore k (eraseCall bbox)] /\
          storeMap_ g' =
            StdMap.assign k
              (Some (fst (eraseMethod bbox
                            (fold_left (fun s e => fst (method e s)) offered s))))
              (storeMap_ g))
         \/
         (since g g' = since g gRun ++ [Polled Coordinator false] /\
          storeMap_ g' = storeMap_ gRun))
    end.
Proof.
  intros Hs. unfold bind at 1. rewrite (subscript_bound _ _ _ Hs).
  destruct (parserAvailable PBF_SUPPORTED_ENABLED (getFormatTypeFromPath path))
    eqn:Havail.
  - rewrite (add_path_available _ _ _ Havail).
    destruct (parseAndComplete_invoke k mkCall method tok
                (readRecords (getFormatTypeFromPath path) path)
                emptyBoundingBox g s Hs)
      as (offered & ending & out & g1 & Hrun & Htrace & Hend & Hmap
          & [rest Hrest] & Hbox & Hthrow).
    unfold bind at 1. rewrite Hrun.
    assert (Hsince1 : since g g1 =
              flat_map (fun e => [Polled DataVisitor false; OnStore k (mkCall e)])
                       offered ++ ending)
      by (apply since_app; exact Htrace).
    destruct out as [bbox | e].
    + pose proof (Hbox bbox eq_refl) as Hbbox.
      unfold bind at 1, isCancelled at 1.
      set (g2 := mkState (storeMap_ g1)
                         (trace g1 ++ [Polled Coordinator (tok (polls g1))])
                         (S (polls g1))).
      assert (Hs2 : StdMap.find k (storeMap_ g2)
                    = Some (Some (fold_left (fun s e => fst (method e s)) offered s))).
      { simpl. rewrite Hmap. now apply find_assign_same with (Some s). }
      destruct (tok (polls g1)) eqn:Hpoll.
      * rewrite (invoke_live _ _ _ _ _ Hs2). intros Heq.
        injection Heq as <- <-.
        exists (Returned bbox), g1, offered, ending.
        split; [reflexivity |]. split; [exact Hsince1 |]. split; [exact Hend |].
        split; [exact Hmap |]. split; [left; now exists rest |].
        split; [exact Hbbox |].
        split; [now destruct (snd (eraseMethod _ _)) |]. split; [reflexivity |].
        left. split.
        -- rewrite Hsince1. apply since_app. simpl.
           rewrite Htrace, <- !app_assoc. reflexivity.
        -- simpl. rewrite Hmap. apply assign_assign.
      * unfold ret. intros Heq. injection Heq as <- <-.
        exists (Returned bbox), g1, offered, ending.
        split; [reflexivity |]. split; [exact Hsince1 |]. split; [exact Hend |].
        split; [exact Hmap |]. split; [left; now exists rest |].
        split; [exact Hbbox |]. split; [reflexivity |]. split; [reflexivity |].
        right. split; [| reflexivity].
        rewrite Hsince1. apply since_app. simpl.
        rewrite Htrace, <- !app_assoc. reflexivity.
    + intros Heq. injection Heq as <- <-.
      exists (Thrown e), g1, offered, ending.
      split; [reflexivity |]. split; [exact Hsince1 |]. split; [exact Hend |].
      split; [exact Hmap |]. split; [left; now exists rest |]. now split.
  - unfold bind at 1. rewrite (add_path_unavailable _ _ _ _ Havail).
    intros Heq. injection Heq as <- <-.
    exists (Thrown (domain_error "Not supported.")), g, [], [].
    split; [reflexivity |]. split.
    { apply since_app. now rewrite app_nil_r. }
    split; [constructor |]. split.
    { simpl. symmetry. now apply assign_same. }
    split; [now right |]. now split.
Qed.

Lemma cancelled_poll_not_in_run k (mkCall : Element -> Call)
    (offered : list Element) (run : list Event) :
  (forall ev, In ev run ->
     (exists answer, ev = Polled DataVisitor answer) \/
     (exists e, In e offered /\ ev = OnStore k (mkCall e))) ->
  ~ In (Polled Coordinator true) run.
Proof.
  intros Hkinds Hin.
  destruct (Hkinds _ Hin) as [[answer Heq] | [e [_ Heq]]]; discriminate.
Qed.

Lemma run_has_no_erase k (mkCall : Element -> Call)
    (offered : list Element) (run : list Event) :
  (forall e, isErase (OnStore k (mkCall e)) = false) ->
  (forall ev, In ev run ->
     (exists answer, ev = Polled DataVisitor answer) \/
     (exists e, In e offered /\ ev = OnStore k (mkCall e))) ->
  count isErase run = 0.
Proof.
  intros Hcall Hkinds. apply count_none. intros ev Hin.
  destruct (Hkinds _ Hin) as [[answer ->] | [e [_ ->]]]; [reflexivity | apply Hcall].
Qed.

(** An ingestion whose added events contain a cancelled poll by the
    coordinator ended the first of the three ways. *)
Ltac cancelled_case Hkinds Hin Hways :=
  destruct Hways as [Hways | [(_ & Hadded & _) | (exn & _ & Hadded & _)]];
  [ | exfalso; rewrite Hadded in Hin;
      apply in_app_or in Hin as [Hin | [Hin | []]];
      [ exact (cancelled_poll_not_in_run _ _ _ _ Hkinds Hin) | discriminate ]
    | exfalso; rewrite Hadded in Hin;
      exact (cancelled_poll_not_in_run _ _ _ _ Hkinds Hin) ].

Context {Laws : ElementStoreLaws Store}.


Lemma run_events_store_operations k (mkCall : Element -> Call)
    (offered : list Element) (ending : list Event) :
  (forall e, isStoreOperation (OnStore k (mkCall e)) = true) ->
  Forall (fun ev => exists answer, ev = Polled DataVisitor answer) ending ->
  filter isStoreOperation
         (flat_map (fun e => [Polled DataVisitor false; OnStore k (mkCall e)]) offered
          ++ ending)
  = map (fun e => OnStore k (mkCall e)) offered.
Proof.
  intros Hcall Hend. rewrite filter_app.
  replace (filter isStoreOperation ending) with (@nil Event).
  - rewrite app_nil_r. induction offered as [| e offered IH]; cbn [flat_map app filter map].
    + reflexivity.
    + change (isStoreOperation (Polled DataVisitor false)) with false.
      cbv iota. rewrite Hcall. now rewrite IH.
  - symmetry. induction Hend as [| ev ending [answer ->] _ IH]; simpl; trivial.
Qed.

Lemma map_calls_injective k (mkCall : Element -> Call) (es1 es2 : list Element) :
  (forall e1 e2, mkCall e1 = mkCall e2 -> e1 = e2) ->
  map (fun e => OnStore k (mkCall e)) es1 = map (fun e => OnStore k (mkCall e)) es2 ->
  es1 = es2.
Proof.
  intros Hinj. revert es2.
  induction es1 as [| e1 es1 IH]; intros [| e2 es2] Heq; simpl in Heq;
    try discriminate; trivial.
  injection Heq as Hcall Hrest. f_equal; [now apply Hinj | now apply IH].
Qed.



(** C8. For a path whose detected format has no parser in the build (the
    binary format when [PBF_SUPPORTED_ENABLED] is off), the dispatcher
    throws the "Not supported." domain error at once, without calling the
    functor or polling the token; each path overload of [add] lets the
    error through to its caller, and its execution adds no event at all:
    no store call on any store, no erase, no second attempt. *)
Theorem add_unsupported_format_throws (path : string)
    (cancelToken : CancellationToken) :
  parserAvailable PBF_SUPPORTED_ENABLED (getFormatTypeFromPath path) = false ->
  (forall (functor : Element -> M Store bool) g,
     add_path PBF_SUPPORTED_ENABLED readRecords path cancelToken functor g
     = (Thrown (domain_error "Not supported."), g)) /\
  (forall g storeKey styleProvider,
     (forall quadKey,
        let r := add_path_quadKey PBF_SUPPORTED_ENABLED readRecords storeKey path
                                  quadKey styleProvider cancelToken g in
        fst r = Thrown (domain_error "Not supported.") /\
        trace (snd r) = trace g /\ polls (snd r) = polls g) /\
     (forall range,
        let r := add_path_range PBF_SUPPORTED_ENABLED readRecords storeKey path
                                range styleProvider cancelToken g in
        fst r = Thrown (domain_error "Not supported.") /\
        trace (snd r) = trace g /\ polls (snd r) = polls g) /\
     (forall bbox range,
        let r := add_path_bbox_range PBF_SUPPORTED_ENABLED readRecords storeKey path
                                     bbox range styleProvider cancelToken g in
        fst r = Thrown (domain_error "Not supported.") /\
        trace (snd r) = trace g /\ polls (snd r) = polls g)).
Proof.
  intros Havail. split.
  - intros functor g. now apply add_path_unavailable.
  - intros g storeKey styleProvider. repeat split;
      unfold add_path_quadKey, add_path_range, add_path_bbox_range;
      unfold bind at 1; unfold subscript at 1; unfold bind at 1;
      rewrite (add_path_unavailable _ _ _ _ Havail); reflexivity.
Qed.

(** C10. The element overload of [add] does not look at the token: for a
    key that owns a store, whatever the token, it returns after exactly
    one call, the store's range-scoped store call with the caller's
    element, range and style provider; it issues no erase and polls
    nothing, and the execution is the same for every token, cancelled or
    not. *)
Theorem add_element_ignores_token g (storeKey : string) (element : Element)
    (range : LodRange) (styleProvider : StyleProvider)
    (cancelToken : CancellationToken) (s : Store) :
  StdMap.find storeKey (storeMap_ g) = Some (Some s) ->
  add_element storeKey element range styleProvider cancelToken g =
    (Returned tt,
     mkState (StdMap.assign storeKey
                (Some (fst (storeRange s element range styleProvider)))
                (storeMap_ g))
             (trace g ++ [OnStore storeKey (StoreRange element range styleProvider)])
             (polls g)) /\
  (forall otherToken : CancellationToken,
     add_element storeKey element range styleProvider otherToken g
     = add_element storeKey element range styleProvider cancelToken g) /\
  (let g' := snd (add_element storeKey element range styleProvider
                              (fun _ => true) g) in
   since g g' = [OnStore storeKey (StoreRange element range styleProvider)] /\
   count isStoreOperation (since g g') = 1 /\
   count isErase (since g g') = 0 /\
   count isPoll (since g g') = 0 /\
   polls g' = polls g).
Proof.
  intros Hs.
  assert (Hrun : forall tok : CancellationToken,
    add_element storeKey element range styleProvider tok g =
    (Returned tt,
     mkState (StdMap.assign storeKey
                (Some (fst (storeRange s element range styleProvider)))
                (storeMap_ g))
             (trace g ++ [OnStore storeKey (StoreRange element range styleProvider)])
             (polls g))).
  { intros tok. unfold add_element. unfold bind at 1.
    rewrite (subscript_bound _ _ _ Hs). unfold bind at 1.
    rewrite (invoke_live _ _ _ _ _ Hs). reflexivity. }
  split; [apply Hrun |]. split.
  - intros otherToken. now rewrite !Hrun.
  - rewrite Hrun. cbn [snd].
    rewrite (since_app g _ [OnStore storeKey (StoreRange element range styleProvider)])
      by reflexivity.
    repeat split.
Qed.

End FacadeFacts.

(** ** Registries built by registration *)

Section RegistrationFacts.
Context {Store : Type} `{ElementStore Store}.

Lemma allLive_emplace (m : StdMap.t (unique_ptr Store)) (k : string) (s : Store) :
  allLive m = true -> allLive (StdMap.emplace k (Some s) m) = true.
Proof.
  induction m as [| [k0 p] m IH]; simpl; intros Hlive; trivial.
  destruct (StdMap.key_compare k k0); simpl; trivial.
  apply andb_prop in Hlive as [Hp Hlive]. now rewrite Hp, IH.
Qed.

(** The map of a facade built by registrations alone is in ascending key
    order, whatever the order of the registrations, and owns a store under
    every key. *)
Lemma registerAll_wellformed (stores : list (string * Store)) :
  StdMap.ascending (storeMap_ (registerAll stores)) = true /\
  allLive (storeMap_ (registerAll stores)) = true.
Proof.
  unfold registerAll.
  assert (Hgen : forall (g : State Store),
    StdMap.ascending (storeMap_ g) = true -> allLive (storeMap_ g) = true ->
    let g' := fold_left
                (fun g entry => snd (registerStore (fst entry) (Some (snd entry)) g))
                stores g in
    StdMap.ascending (storeMap_ g') = true /\ allLive (storeMap_ g') = true).
  { induction stores as [| [k s] stores IH]; intros g Hasc Hlive; simpl; auto.
    apply IH; simpl.
    - now apply emplace_ascending.
    - now apply allLive_emplace. }
  now apply Hgen.
Qed.

End RegistrationFacts.

(** ** The in-memory store *)

Lemma inMemory_has_erase (s : InMemory.t) (q : QuadKey) :
  InMemory.has (InMemory.erase s q) q = false.
Proof.
  unfold InMemory.has, InMemory.erase.
  induction s as [| entry s IH]; simpl; trivial.
  destruct (InMemory.inQuadKey q entry) eqn:Hin; simpl; trivial.
  now rewrite Hin.
Qed.

Lemma inMemory_laws : ElementStoreLaws InMemory.t.
Proof. constructor. exact inMemory_has_erase. Qed.

(** ** The properties on the concrete scenarios *)

Section Scenarios.
Import Scenario.

Ltac find_event := simpl; repeat (first [left; reflexivity | right]).

Lemma getFormatTypeFromPath_by_suffix_witness :
  getFormatTypeFromPath "berlin.osm.pbf" = Pbf /\
  getFormatTypeFromPath "berlin.osm.xml" = Xml /\
  getFormatTypeFromPath "data.json" = Json /\
  getFormatTypeFromPath "roads.shp" = Shape /\
  getFormatTypeFromPath "README" = Shape.
Proof.
  split; [| split; [| split; [| split]]].
  - apply (getFormatTypeFromPath_by_suffix "berlin.osm.pbf").
    now exists "berlin.osm.".
  - apply (getFormatTypeFromPath_by_suffix "berlin.osm.xml").
    now exists "berlin.osm.".
  - apply (getFormatTypeFromPath_by_suffix "data.json").
    now exists "data.".
  - apply (getFormatTypeFromPath_by_suffix "roads.shp");
      intros Hex; apply endsWith_suffix in Hex; discriminate.
  - apply (getFormatTypeFromPath_by_suffix "README");
      intros Hex; apply endsWith_suffix in Hex; discriminate.
Defined.

Lemma registerStore_bound_is_noop_witness :
  StdMap.find "roads" (storeMap_ roadsAndBuildings)
    = Some (Some [(element 7, InMemory.UnderQuadKey otherTile)]) /\
  registerStore "roads" (Some []) roadsAndBuildings = (Returned tt, roadsAndBuildings) /\
  hasData tile (snd (registerStore "roads" (Some []) roadsAndBuildings))
    = hasData tile roadsAndBuildings.
Proof.
  split; [reflexivity |].
  destruct (registerStore_bound_is_noop roadsAndBuildings "roads"
              (Some [(element 7, InMemory.UnderQuadKey otherTile)]) (Some [])
              eq_refl) as (Hnoop & _ & Hhas & _).
  split; [exact Hnoop | exact (Hhas tile)].
Defined.

Lemma search_quadKey_only_stores_with_data_witness :
  StdMap.ascending (storeMap_ roadsAndBuildings) = true /\
  allLive (storeMap_ roadsAndBuildings) = true /\
  exists visitor' g',
    search_quadKey tile anyStyle [] neverCancelled roadsAndBuildings
      = (Returned visitor', g') /\
    count (isSearchQuadKeyOn "roads") (since roadsAndBuildings g') = 0 /\
    count (isSearchQuadKeyOn "buildings") (since roadsAndBuildings g') = 1 /\
    visitor' = [element 8].
Proof.
  split; [reflexivity |]. split; [reflexivity |].
  destruct (search_quadKey_only_stores_with_data roadsAndBuildings tile anyStyle []
              neverCancelled eq_refl eq_refl)
    as (visitor' & g' & Hrun & _ & Hcount & _ & Hresult & _).
  exists visitor', g'. split; [exact Hrun |].
  split; [| split; [| exact (f_equal fst Hresult)]].
  - exact (proj1 (Hcount "roads" [(element 7, InMemory.UnderQuadKey otherTile)]
                         eq_refl)).
  - exact (proj1 (Hcount "buildings"
                         [(element 8, InMemory.UnderQuadKey tile);
                          (element 9, InMemory.UnderRange lod)] eq_refl)).
Defined.

Lemma hasData_any_store_witness :
  StdMap.ascending (storeMap_ roadsAndBuildings) = true /\
  allLive (storeMap_ roadsAndBuildings) = true /\
  fst (hasData tile roadsAndBuildings) = Returned true /\
  ~ In (OnStore "roads" (HasData tile))
       (since roadsAndBuildings (snd (hasData tile roadsAndBuildings))).
Proof.
  split; [reflexivity |]. split; [reflexivity |].
  destruct (hasData_any_store roadsAndBuildings tile eq_refl eq_refl)
    as (answer & asked & Hrun & Hiff & _ & _ & Hstop).
  rewrite Hrun. cbn [fst snd]. split.
  - f_equal. apply Hiff.
    exists "buildings", [(element 8, InMemory.UnderQuadKey tile);
                         (element 9, InMemory.UnderRange lod)].
    split; reflexivity.
  - rewrite (since_app roadsAndBuildings _
               (map (fun k => OnStore k (HasData tile)) asked)) by reflexivity.
    intros Hin. apply in_map_iff in Hin as [k [Hk Hin]].
    injection Hk as ->.
    exact (Hstop [] "buildings" ["roads"] "roads" eq_refl eq_refl
                 (or_introl eq_refl) Hin).
Defined.

Lemma search_terms_every_store_in_key_order_witness :
  StdMap.ascending (storeMap_ roadsAndBuildings) = true /\
  allLive (storeMap_ roadsAndBuildings) = true /\
  exists visitor' g',
    search_terms "" "" "" box lod [] neverCancelled roadsAndBuildings
      = (Returned visitor', g') /\
    since roadsAndBuildings g' =
      [OnStore "buildings" (SearchTerms "" "" "" box lod neverCancelled);
       OnStore "roads" (SearchTerms "" "" "" box lod neverCancelled)].
Proof.
  split; [reflexivity |]. split; [reflexivity |].
  destruct (search_terms_every_store_in_key_order roadsAndBuildings "" "" "" box lod
              [] neverCancelled eq_refl eq_refl)
    as (visitor' & g' & Hrun & Hsince & _).
  exists visitor', g'. split; [exact Hrun | exact Hsince].
Defined.

(** C9 as stated fails: ["roads"] is registered before ["buildings"], yet
    the predicate search calls ["buildings"] first. *)
Lemma search_terms_not_in_registration_order :
  let registrations : list (string * InMemory.t) :=
    [("roads", []); ("buildings", [])] in
  let g := registerAll registrations in
  let g' := snd (search_terms "" "" "" box lod [] neverCancelled g) in
  since g g' =
    [OnStore "buildings" (SearchTerms "" "" "" box lod neverCancelled);
     OnStore "roads" (SearchTerms "" "" "" box lod neverCancelled)] /\
  since g g' <>
    map (fun k => OnStore k (SearchTerms "" "" "" box lod neverCancelled))
        (map fst registrations).
Proof.
  split; [reflexivity |].
  intros Heq. vm_compute in Heq. discriminate Heq.
Qed.





Lemma add_unsupported_format_throws_witness :
  parserAvailable false (getFormatTypeFromPath "berlin.osm.pbf") = false /\
  fst (add_path_quadKey false files "roads" "berlin.osm.pbf" tile anyStyle
                        alreadyCancelled roads)
    = Thrown (domain_error "Not supported.") /\
  trace (snd (add_path_quadKey false files "roads" "berlin.osm.pbf" tile anyStyle
                               alreadyCancelled roads))
    = trace roads.
Proof.
  split; [reflexivity |].
  destruct (add_unsupported_format_throws (Store := InMemory.t) false files
              "berlin.osm.pbf" alreadyCancelled eq_refl) as [_ Hadds].
  destruct (Hadds roads "roads" anyStyle) as [Htile _].
  destruct (Htile tile) as (Hthrown & Htrace & _).
  split; [exact Hthrown | exact Htrace].
Defined.

Lemma add_element_ignores_token_witness :
  StdMap.find "roads" (storeMap_ roads) = Some (Some []) /\
  add_element "roads" (element 1) lod anyStyle alreadyCancelled roads
    = (Returned tt,
       mkState [("roads", Some [(element 1, InMemory.UnderRange lod)])]
               [OnStore "roads" (StoreRange (element 1) lod anyStyle)] 0) /\
  add_element "roads" (element 1) lod anyStyle neverCancelled roads
    = add_element "roads" (element 1) lod anyStyle alreadyCancelled roads.
Proof.
  split; [reflexivity |].
  destruct (add_element_ignores_token roads "roads" (element 1) lod anyStyle
              alreadyCancelled [] eq_refl) as (Hrun & Hsame & _).
  split; [exact Hrun | exact (Hsame neverCancelled)].
Defined.

(** Cancellation after the third of five elements: three store calls, then
    one erase with the caller's box and range, and nothing of the run is
    left in the store. *)
Example cancelled_after_third_element :
  let r := add_path_bbox_range false files "roads" "data.json" box lod anyStyle
                               (cancelledAfter 3) roads in
  since roads (snd r) =
    [Polled DataVisitor false;
     OnStore "roads" (StoreBoundingBox (element 1) box lod anyStyle);
     Polled DataVisitor false;
     OnStore "roads" (StoreBoundingBox (element 2) box lod anyStyle);
     Polled DataVisitor false;
     OnStore "roads" (StoreBoundingBox (element 3) box lod anyStyle);
     Polled DataVisitor true;
     Polled Coordinator true;
     OnStore "roads" (EraseBoundingBox box lod)] /\
  StdMap.find "roads" (storeMap_ (snd r)) = Some (Some []).
Proof. split; reflexivity. Qed.

(** A parser failure after two elements goes to the caller; the two writes
    stay and no erase is issued. *)
Example parser_failure_keeps_partial_writes :
  let r := add_path_quadKey false files "roads" "broken.xml" tile anyStyle
                            neverCancelled roads in
  fst r = Thrown ParserError /\
  count isStoreOperation (since roads (snd r)) = 2 /\
  count isErase (since roads (snd r)) = 0 /\
  StdMap.find "roads" (storeMap_ (snd r))
    = Some (Some [(element 1, InMemory.UnderQuadKey tile);
                  (element 2, InMemory.UnderQuadKey tile)]).
Proof. repeat split; reflexivity. Qed.

(** An ingestion under a key that was never registered leaves a null
    pointer in the map (here the call throws before any store call); the
    next federated query then has no object to call. *)
Example unregistered_key_leaves_null_pointer :
  let r := add_path_range false files "missing" "berlin.osm.pbf" lod anyStyle
                          neverCancelled roads in
  fst r = Thrown (domain_error "Not supported.") /\
  storeMap_ (snd r) = [("missing", None); ("roads", Some [])] /\
  allLive (storeMap_ (snd r)) = false /\
  fst (hasData tile (snd r)) = Thrown NullPointerDereference.
Proof. repeat split; reflexivity. Qed.

End Scenarios.

(** * Further properties of the facade *)

(** ** Registration *)

Section MoreMapFacts.
Context {V : Type}.
Implicit Types (m : StdMap.t V) (k : string) (v : V).

Lemma find_emplace_fresh k v m :
  StdMap.find k m = None -> StdMap.find k (StdMap.emplace k v m) = Some v.
Proof.
  induction m as [| [k0 w] m IH]; simpl; intros Hf.
  - now rewrite key_compare_refl.
  - destruct (StdMap.key_compare k k0) eqn:Hc; simpl.
    + discriminate.
    + now rewrite key_compare_refl.
    + rewrite Hc. now apply IH.
Qed.

Lemma find_emplace_other k k' v m :
  k' <> k -> StdMap.find k' (StdMap.emplace k v m) = StdMap.find k' m.
Proof.
  intros Hne. induction m as [| [k0 w] m IH]; simpl.
  - destruct (StdMap.key_compare k' k) eqn:Hc; trivial.
    apply key_compare_eq in Hc. contradiction.
  - destruct (StdMap.key_compare k k0) eqn:Hc; simpl; trivial.
    + destruct (StdMap.key_compare k' k) eqn:Hc'.
      * apply key_compare_eq in Hc'. contradiction.
      * now rewrite (key_compare_lt_trans _ _ _ Hc' Hc).
      * reflexivity.
    + now rewrite IH.
Qed.

Lemma find_emplace k k' v m :
  StdMap.find k' (StdMap.emplace k v m) =
    if String.eqb k' k
    then match StdMap.find k m with Some w => Some w | None => Some v end
    else StdMap.find k' m.
Proof.
  destruct (String.eqb_spec k' k) as [-> | Hne].
  - destruct (StdMap.find k m) as [w |] eqn:Hf.
    + now rewrite (find_emplace_bound _ _ _ _ Hf).
    + now apply find_emplace_fresh.
  - now apply find_emplace_other.
Qed.

End MoreMapFacts.

Section RegistrationProperties.
Context {Store : Type} `{ElementStore Store}.
Implicit Types (g : State Store) (k storeKey : string).

(** X1. Registering a store under a key that is not bound yet binds the
    key to that store and to nothing else: a lookup of the key finds the
    new pointer, every other key looks up as before, the key set grows by
    exactly that key, the ascending order of the map is kept, and no store
    is called and no token polled. *)
Theorem registerStore_fresh_binds g storeKey (store : unique_ptr Store) :
  StdMap.find storeKey (storeMap_ g) = None ->
  let g' := snd (registerStore storeKey store g) in
  fst (registerStore storeKey store g) = Returned tt /\
  StdMap.find storeKey (storeMap_ g') = Some store /\
  (forall k, k <> storeKey ->
     StdMap.find k (storeMap_ g') = StdMap.find k (storeMap_ g)) /\
  (forall k, In k (StdMap.keys (storeMap_ g')) <->
             k = storeKey \/ In k (StdMap.keys (storeMap_ g))) /\
  (StdMap.ascending (storeMap_ g) = true ->
   StdMap.ascending (storeMap_ g') = true) /\
  trace g' = trace g /\ polls g' = polls g.
Proof.
  intros Hfresh. simpl. split; [reflexivity |]. split; [| split; [| split; [| split]]].
  - now apply find_emplace_fresh.
  - intros k Hne. now apply find_emplace_other.
  - intros k. apply keys_emplace.
  - apply emplace_ascending.
  - split; reflexivity.
Qed.

Lemma registerAll_from g (stores : list (string * Store)) k :
  StdMap.find k
    (storeMap_ (fold_left
                  (fun g entry => snd (registerStore (fst entry) (Some (snd entry)) g))
                  stores g))
  = match StdMap.find k (storeMap_ g) with
    | Some p => Some p
    | None => option_map Some (firstRegistered k stores)
    end.
Proof.
  revert g. induction stores as [| [k0 s0] stores IH]; intros g; simpl.
  - now destruct (StdMap.find k (storeMap_ g)).
  - rewrite IH. simpl. rewrite find_emplace.
    destruct (String.eqb_spec k k0) as [-> | Hne].
    + now destruct (StdMap.find k0 (storeMap_ g)).
    + reflexivity.
Qed.

Lemma In_keys_find {V} (m : StdMap.t V) k :
  StdMap.ascending m = true ->
  (In k (StdMap.keys m) <-> exists v, StdMap.find k m = Some v).
Proof.
  intros Hasc. split.
  - intros Hin. unfold StdMap.keys in Hin.
    apply in_map_iff in Hin as [[k' v] [Hk Hin]]. simpl in Hk. subst k'.
    exists v. now apply ascending_find.
  - intros [v Hf]. now apply find_Some_In with v.
Qed.

Lemma firstRegistered_In (stores : list (string * Store)) k :
  (exists s, firstRegistered k stores = Some s) <-> In k (map fst stores).
Proof.
  induction stores as [| [k0 s0] stores IH]; simpl.
  - split; [intros [s Hs]; discriminate | contradiction].
  - destruct (String.eqb_spec k k0) as [-> | Hne].
    + split; [now left | now exists s0].
    + rewrite IH. split; [now right | intros [Heq | Hin]; [congruence | exact Hin]].
Qed.

(** X2. After any sequence of registrations on a fresh facade, a key is
    bound to the store that was registered under it first; later
    registrations under the same key are all discarded, and a key that was
    never registered is unbound. *)
Theorem registerAll_first_registration_wins (stores : list (string * Store)) k :
  StdMap.find k (storeMap_ (registerAll stores))
  = option_map Some (firstRegistered k stores) /\
  (In k (StdMap.keys (storeMap_ (registerAll stores))) <-> In k (map fst stores)).
Proof.
  assert (Hfind : StdMap.find k (storeMap_ (registerAll stores))
                  = option_map Some (firstRegistered k stores)).
  { unfold registerAll. now rewrite registerAll_from. }
  split; [exact Hfind |].
  destruct (registerAll_wellformed stores) as [Hasc _].
  rewrite (In_keys_find _ _ Hasc), Hfind, <- firstRegistered_In.
  destruct (firstRegistered k stores) as [s |]; simpl.
  - split; intros _; eauto.
  - split; intros [x Hx]; discriminate.
Qed.

End RegistrationProperties.

(** ** Format detection looks at the end of the path only *)

Section FormatLocality.
Local Open Scope string_scope.

Lemma append_assoc_string (a b c : string) : (a ++ b) ++ c = a ++ (b ++ c).
Proof. induction a as [| ch a IH]; simpl; congruence. Qed.

Lemma endsWith_local (p s ending : string) :
  String.length ending <= String.length s ->
  endsWith (p ++ s) ending = endsWith s ending.
Proof.
  intros Hlen.
  destruct (endsWith s ending) eqn:Hs.
  - apply endsWith_suffix in Hs as [q ->]. rewrite <- append_assoc_string.
    apply endsWith_append.
  - destruct (endsWith (p ++ s) ending) eqn:Hps; trivial.
    pose proof (endsWith_exclusive (p ++ s) ending s Hps (endsWith_append p s) Hlen).
    congruence.
Qed.

(** X3. The detected format depends on the last four characters of the
    path only: whatever is put in front of a path of at least four
    characters (directories, drive names, further dots) leaves the format
    unchanged. *)
Theorem getFormatTypeFromPath_suffix_only (front path : string) :
  4 <= String.length path ->
  getFormatTypeFromPath (front ++ path) = getFormatTypeFromPath path.
Proof.
  intros Hlen. unfold getFormatTypeFromPath.
  rewrite !endsWith_local by (simpl; lia). reflexivity.
Qed.

(** X4. A path of fewer than three characters, the empty path included,
    is never taken for an OSM format: it is dispatched to the shape
    parser. *)
Theorem getFormatTypeFromPath_short_is_shape (path : string) :
  String.length path < 3 -> getFormatTypeFromPath path = Shape.
Proof.
  intros Hlen. unfold getFormatTypeFromPath, endsWith. simpl String.length.
  replace (Nat.leb 3 (String.length path)) with false
    by (symmetry; apply Nat.leb_gt; lia).
  replace (Nat.leb 4 (String.length path)) with false
    by (symmetry; apply Nat.leb_gt; lia).
  reflexivity.
Qed.

End FormatLocality.

(** ** Ingestion: what every execution keeps *)

Section IngestionProperties.
Context {Store : Type} `{ElementStore Store}.
Variable PBF_SUPPORTED_ENABLED : bool.
Variable readRecords : FormatType -> string -> list ParsedRecord.
Implicit Types (g : State Store) (k storeKey : string).

(** The shape shared by the three path overloads of [add]. *)
Local Abbreviation ingest k path tok mkCall method eraseCall eraseMethod :=
  (bind (subscript k) (fun _ =>
     bind (add_path PBF_SUPPORTED_ENABLED readRecords path tok
                    (fun e => invoke k (mkCall e) (method e)))
          (fun bbox =>
             bind (isCancelled Coordinator tok)
                  (fun cancelled : bool =>
                     if cancelled
                     then invoke k (eraseCall bbox) (eraseMethod bbox)
                     else ret tt)))).

Lemma offeredElement_of_calls k (mkCall : Element -> Call) (offered : list Element)
    (run : list Event) :
  (forall e, offeredElement (OnStore k (mkCall e)) = [e]) ->
  filter (fun ev => negb (isPoll ev)) run
    = map (fun e => OnStore k (mkCall e)) offered ->
  flat_map offeredElement run = offered.
Proof.
  intros Hcall Hfilter.
  assert (Hpolls : flat_map offeredElement run
                   = flat_map offeredElement (filter (fun ev => negb (isPoll ev)) run)).
  { clear. induction run as [| ev run IH]; simpl; trivial.
    destruct ev as [k' c | who answer]; simpl; [now rewrite IH | exact IH]. }
  rewrite Hpolls, Hfilter. clear -Hcall.
  induction offered as [| e offered IH]; cbn [map flat_map]; trivial.
  now rewrite Hcall, IH.
Qed.

Lemma calledStore_of_run k (mkCall : Element -> Call) (offered : list Element)
    (run : list Event) :
  (forall ev, In ev run ->
     (exists answer, ev = Polled DataVisitor answer) \/
     (exists e, In e offered /\ ev = OnStore k (mkCall e))) ->
  forall k', In k' (flat_map calledStore run) -> k' = k.
Proof.
  intros Hkinds k' Hin. apply in_flat_map in Hin as [ev [Hev Hk']].
  destruct (Hkinds _ Hev) as [[answer ->] | [e [_ ->]]]; simpl in Hk'.
  - contradiction.
  - destruct Hk' as [<- | []]. reflexivity.
Qed.

Lemma count_coordinator_polls_of_run k (mkCall : Element -> Call)
    (offered : list Element) (run : list Event) :
  (forall ev, In ev run ->
     (exists answer, ev = Polled DataVisitor answer) \/
     (exists e, In e offered /\ ev = OnStore k (mkCall e))) ->
  count isCoordinatorPoll run = 0.
Proof.
  intros Hkinds. apply count_none. intros ev Hin.
  destruct (Hkinds _ Hin) as [[answer ->] | [e [_ ->]]]; reflexivity.
Qed.

(** An ingestion touches the store under its key and nothing else. *)
Lemma ingest_isolated k (path : string) (tok : CancellationToken)
    (mkCall : Element -> Call) (method : Element -> Store -> Store * bool)
    (eraseCall : BoundingBox -> Call)
    (eraseMethod : BoundingBox -> Store -> Store * unit) g (s : Store) :
  StdMap.find k (storeMap_ g) = Some (Some s) ->
  let r := ingest k path tok mkCall method eraseCall eraseMethod g in
  (forall k', k' <> k ->
     StdMap.find k' (storeMap_ (snd r)) = StdMap.find k' (storeMap_ g)) /\
  StdMap.keys (storeMap_ (snd r)) = StdMap.keys (storeMap_ g) /\
  (forall k', In k' (flat_map calledStore (since g (snd r))) -> k' = k).
Proof.
  intros Hs r.
  destruct (ingest_outcomes PBF_SUPPORTED_ENABLED readRecords k path tok mkCall
              method eraseCall eraseMethod g s (fst r) (snd r) Hs
              (surjective_pairing r))
    as (offered & run & Hkinds & _ & _ & Hways).
  pose proof (calledStore_of_run _ _ _ _ Hkinds) as Hrun.
  assert (Hmap : exists p, storeMap_ (snd r) = StdMap.assign k p (storeMap_ g)).
  { destruct Hways as [(_ & _ & Hmap) | [(_ & _ & Hmap) | (e & _ & _ & Hmap)]];
      eauto. }
  destruct Hmap as [p Hmap]. split; [| split].
  - intros k' Hne. rewrite Hmap. now apply find_assign_other.
  - rewrite Hmap. apply keys_assign.
  - intros k' Hin.
    destruct Hways as [(_ & Hadded & _) | [(_ & Hadded & _) | (e & _ & Hadded & _)]];
      rewrite Hadded in Hin; try rewrite flat_map_app in Hin;
      try (apply in_app_or in Hin as [Hin | Hin]); try (now apply Hrun);
      simpl in Hin; intuition congruence.
Qed.

(** X5. Every ingestion under a key that owns a store, whichever overload
    of [add] and however it ends, leaves all other stores and the key set
    of the registry as they were, and calls no store but the one under its
    key. *)
Theorem add_touches_only_its_store g storeKey (path : string) (element : Element)
    (quadKey : QuadKey) (bbox : BoundingBox) (range : LodRange)
    (styleProvider : StyleProvider) (cancelToken : CancellationToken) (s : Store) :
  StdMap.find storeKey (storeMap_ g) = Some (Some s) ->
  let isolated (r : Outcome unit * State Store) :=
    (forall k, k <> storeKey ->
       StdMap.find k (storeMap_ (snd r)) = StdMap.find k (storeMap_ g)) /\
    StdMap.keys (storeMap_ (snd r)) = StdMap.keys (storeMap_ g) /\
    (forall k, In k (flat_map calledStore (since g (snd r))) -> k = storeKey) in
  isolated (add_element storeKey element range styleProvider cancelToken g) /\
  isolated (add_path_quadKey PBF_SUPPORTED_ENABLED readRecords storeKey path quadKey
                             styleProvider cancelToken g) /\
  isolated (add_path_range PBF_SUPPORTED_ENABLED readRecords storeKey path range
                           styleProvider cancelToken g) /\
  isolated (add_path_bbox_range PBF_SUPPORTED_ENABLED readRecords storeKey path bbox
                                range styleProvider cancelToken g).
Proof.
  intros Hs isolated. split; [| split; [| split]].
  - assert (Hrun :
      add_element storeKey element range styleProvider cancelToken g =
      (Returned tt,
       mkState (StdMap.assign storeKey
                  (Some (fst (storeRange s element range styleProvider)))
                  (storeMap_ g))
               (trace g ++ [OnStore storeKey (StoreRange element range styleProvider)])
               (polls g))).
    { unfold add_element. unfold bind at 1.
      rewrite (subscript_bound _ _ _ Hs). unfold bind at 1.
      rewrite (invoke_live _ _ _ _ _ Hs). reflexivity. }
    unfold isolated. rewrite Hrun. cbn [snd storeMap_].
    rewrite (since_app g _ [OnStore storeKey (StoreRange element range styleProvider)])
      by reflexivity.
    split; [| split].
    + intros k Hne. now apply find_assign_other.
    + apply keys_assign.
    + intros k [<- | []]. reflexivity.
  - exact (ingest_isolated storeKey path cancelToken
             (fun e => StoreQuadKey e quadKey styleProvider)
             (fun e s => storeQuadKey s e quadKey styleProvider)
             (fun _ => EraseQuadKey quadKey)
             (fun _ s => (eraseQuadKey s quadKey, tt)) g s Hs).
  - exact (ingest_isolated storeKey path cancelToken
             (fun e => StoreRange e range styleProvider)
             (fun e s => storeRange s e range styleProvider)
             (fun b => EraseBoundingBox b range)
             (fun b s => (eraseBoundingBox s b range, tt)) g s Hs).
  - exact (ingest_isolated storeKey path cancelToken
             (fun e => StoreBoundingBox e bbox range styleProvider)
             (fun e s => storeBoundingBox s e bbox range styleProvider)
             (fun _ => EraseBoundingBox bbox range)
             (fun _ s => (eraseBoundingBox s bbox range, tt)) g s Hs).
Qed.

(** *** Exceptions are let through without rollback *)

Lemma ingest_thrown k (path : string) (tok : CancellationToken)
    (mkCall : Element -> Call) (method : Element -> Store -> Store * bool)
    (eraseCall : BoundingBox -> Call)
    (eraseMethod : BoundingBox -> Store -> Store * unit) g (s : Store)
    (exn : Exception) :
  (forall e, offeredElement (OnStore k (mkCall e)) = [e]) ->
  (forall e, isErase (OnStore k (mkCall e)) = false) ->
  StdMap.find k (storeMap_ g) = Some (Some s) ->
  let r := ingest k path tok mkCall method eraseCall eraseMethod g in
  fst r = Thrown exn ->
  count isErase (since g (snd r)) = 0 /\
  count isCoordinatorPoll (since g (snd r)) = 0 /\
  StdMap.find k (storeMap_ (snd r)) =
    Some (Some (fold_left (fun s e => fst (method e s))
                          (flat_map offeredElement (since g (snd r))) s)).
Proof.
  intros Helem Hnoerase Hs r Hthrown.
  destruct (ingest_outcomes PBF_SUPPORTED_ENABLED readRecords k path tok mkCall
              method eraseCall eraseMethod g s (fst r) (snd r) Hs
              (surjective_pairing r))
    as (offered & run & Hkinds & Hcalls & _ & Hways).
  destruct Hways as [(Hout & _) | [(Hout & _) | (e & _ & Hadded & Hmap)]];
    try congruence.
  rewrite Hadded. split; [| split].
  - exact (run_has_no_erase k mkCall offered run Hnoerase Hkinds).
  - exact (count_coordinator_polls_of_run k mkCall offered run Hkinds).
  - rewrite (offeredElement_of_calls k mkCall offered run Helem Hcalls), Hmap.
    now apply find_assign_same with (Some s).
Qed.

(** X6. When a path ingestion throws (a record the parser rejects, or a
    format without parser), none of the three overloads rolls back: no
    erase is issued, the token is not polled by the coordinator, and the
    store keeps exactly the writes made for the elements offered before
    the failure. *)
Theorem add_path_thrown_keeps_partial_writes g storeKey (path : string)
    (quadKey : QuadKey) (bbox : BoundingBox) (range : LodRange)
    (styleProvider : StyleProvider) (cancelToken : CancellationToken) (s : Store) :
  StdMap.find storeKey (storeMap_ g) = Some (Some s) ->
  let unrolled (method : Store -> Element -> Store)
               (r : Outcome unit * State Store) :=
    forall exn, fst r = Thrown exn ->
      count isErase (since g (snd r)) = 0 /\
      count isCoordinatorPoll (since g (snd r)) = 0 /\
      StdMap.find storeKey (storeMap_ (snd r)) =
        Some (Some (fold_left method (flat_map offeredElement (since g (snd r))) s)) in
  unrolled (fun s e => fst (storeQuadKey s e quadKey styleProvider))
           (add_path_quadKey PBF_SUPPORTED_ENABLED readRecords storeKey path quadKey
                             styleProvider cancelToken g) /\
  unrolled (fun s e => fst (storeRange s e range styleProvider))
           (add_path_range PBF_SUPPORTED_ENABLED readRecords storeKey path range
                           styleProvider cancelToken g) /\
  unrolled (fun s e => fst (storeBoundingBox s e bbox range styleProvider))
           (add_path_bbox_range PBF_SUPPORTED_ENABLED readRecords storeKey path bbox
                                range styleProvider cancelToken g).
Proof.
  intros Hs unrolled. split; [| split]; intros exn.
  - exact (ingest_thrown storeKey path cancelToken
             (fun e => StoreQuadKey e quadKey styleProvider)
             (fun e s => storeQuadKey s e quadKey styleProvider)
             (fun _ => EraseQuadKey quadKey)
             (fun _ s => (eraseQuadKey s quadKey, tt)) g s exn
             (fun _ => eq_refl) (fun _ => eq_refl) Hs).
  - exact (ingest_thrown storeKey path cancelToken
             (fun e => StoreRange e range styleProvider)
             (fun e s => storeRange s e range styleProvider)
             (fun b => EraseBoundingBox b range)
             (fun b s => (eraseBoundingBox s b range, tt)) g s exn
             (fun _ => eq_refl) (fun _ => eq_refl) Hs).
  - exact (ingest_thrown storeKey path cancelToken
             (fun e => StoreBoundingBox e bbox range styleProvider)
             (fun e s => storeBoundingBox s e bbox range styleProvider)
             (fun _ => EraseBoundingBox bbox range)
             (fun _ s => (eraseBoundingBox s bbox range, tt)) g s exn
             (fun _ => eq_refl) (fun _ => eq_refl) Hs).
Qed.

(** *** Runs that are never cancelled *)

Lemma ingest_uncancelled k (path : string) (tok : CancellationToken)
    (mkCall : Element -> Call) (method : Element -> Store -> Store * bool)
    (eraseCall : BoundingBox -> Call)
    (eraseMethod : BoundingBox -> Store -> Store * unit) g (s : Store)
    (es : list Element) :
  (forall e, offeredElement (OnStore k (mkCall e)) = [e]) ->
  (forall e, isErase (OnStore k (mkCall e)) = false) ->
  StdMap.find k (storeMap_ g) = Some (Some s) ->
  parserAvailable PBF_SUPPORTED_ENABLED (getFormatTypeFromPath path) = true ->
  readRecords (getFormatTypeFromPath path) path = map Decoded es ->
  (forall n, tok n = false) ->
  let r := ingest k path tok mkCall method eraseCall eraseMethod g in
  fst r = Returned tt /\
  flat_map offeredElement (since g (snd r)) = es /\
  count isErase (since g (snd r)) = 0 /\
  count isCoordinatorPoll (since g (snd r)) = 1 /\
  StdMap.find k (storeMap_ (snd r)) =
    Some (Some (fold_left (fun s e => fst (method e s)) es s)).
Proof.
  intros Helem Hnoerase Hs Havail Hfile Hnever r.
  assert (Hrun : r =
    (Returned tt,
     mkState (StdMap.assign k (Some (fold_left (fun s e => fst (method e s)) es s))
                            (storeMap_ g))
             (trace g ++
              (flat_map (fun e => [Polled DataVisitor false; OnStore k (mkCall e)]) es
               ++ [Polled Coordinator false]))
             (S (polls g + List.length es)))).
  { unfold r. unfold bind at 1. rewrite (subscript_bound _ _ _ Hs).
    rewrite (add_path_available _ _ _ _ _ Havail), Hfile.
    unfold bind at 1.
    rewrite (parseAndComplete_uncancelled k mkCall method tok Hnever es _ g s Hs).
    unfold bind at 1, isCancelled at 1. cbn [polls storeMap_ trace].
    rewrite Hnever. unfold ret. now rewrite <- app_assoc. }
  rewrite Hrun. cbn [fst snd storeMap_].
  rewrite (since_app g _
             (flat_map (fun e => [Polled DataVisitor false; OnStore k (mkCall e)]) es
              ++ [Polled Coordinator false])) by reflexivity.
  split; [reflexivity |]. split; [| split; [| split]].
  - rewrite flat_map_app. simpl. rewrite app_nil_r.
    clear -Helem. induction es as [| e es IH]; cbn [flat_map app]; trivial.
    rewrite Helem. simpl. now rewrite IH.
  - rewrite count_app. rewrite count_none; [reflexivity |].
    intros ev Hin. apply in_flat_map in Hin as [e [_ [<- | [<- | []]]]]; auto.
  - rewrite count_app. rewrite count_none; [reflexivity |].
    intros ev Hin. apply in_flat_map in Hin as [e [_ [<- | [<- | []]]]]; auto.
  - now apply find_assign_same with (Some s).
Qed.

(** X7. A path ingestion whose token is never cancelled, on a file whose
    records all decode, hands every element of the file to the store
    exactly once and in file order, polls the token once itself after the
    run, issues no erase and returns; the store ends as the writes of all
    the elements leave it.  This holds for the three overloads. *)
Theorem add_path_uncancelled_stores_whole_file g storeKey (path : string)
    (quadKey : QuadKey) (bbox : BoundingBox) (range : LodRange)
    (styleProvider : StyleProvider) (cancelToken : CancellationToken) (s : Store)
    (es : list Element) :
  StdMap.find storeKey (storeMap_ g) = Some (Some s) ->
  parserAvailable PBF_SUPPORTED_ENABLED (getFormatTypeFromPath path) = true ->
  readRecords (getFormatTypeFromPath path) path = map Decoded es ->
  (forall n, cancelToken n = false) ->
  let complete (method : Store -> Element -> Store)
               (r : Outcome unit * State Store) :=
    fst r = Returned tt /\
    flat_map offeredElement (since g (snd r)) = es /\
    count isErase (since g (snd r)) = 0 /\
    count isCoordinatorPoll (since g (snd r)) = 1 /\
    StdMap.find storeKey (storeMap_ (snd r)) = Some (Some (fold_left method es s)) in
  complete (fun s e => fst (storeQuadKey s e quadKey styleProvider))
           (add_path_quadKey PBF_SUPPORTED_ENABLED readRecords storeKey path quadKey
                             styleProvider cancelToken g) /\
  complete (fun s e => fst (storeRange s e range styleProvider))
           (add_path_range PBF_SUPPORTED_ENABLED readRecords storeKey path range
                           styleProvider cancelToken g) /\
  complete (fun s e => fst (storeBoundingBox s e bbox range styleProvider))
           (add_path_bbox_range PBF_SUPPORTED_ENABLED readRecords storeKey path bbox
                                range styleProvider cancelToken g).
Proof.
  intros Hs Havail Hfile Hnever complete. split; [| split].
  - exact (ingest_uncancelled storeKey path cancelToken
             (fun e => StoreQuadKey e quadKey styleProvider)
             (fun e s => storeQuadKey s e quadKey styleProvider)
             (fun _ => EraseQuadKey quadKey)
             (fun _ s => (eraseQuadKey s quadKey, tt)) g s es
             (fun _ => eq_refl) (fun _ => eq_refl) Hs Havail Hfile Hnever).
  - exact (ingest_uncancelled storeKey path cancelToken
             (fun e => StoreRange e range styleProvider)
             (fun e s => storeRange s e range styleProvider)
             (fun b => EraseBoundingBox b range)
             (fun b s => (eraseBoundingBox s b range, tt)) g s es
             (fun _ => eq_refl) (fun _ => eq_refl) Hs Havail Hfile Hnever).
  - exact (ingest_uncancelled storeKey path cancelToken
             (fun e => StoreBoundingBox e bbox range styleProvider)
             (fun e s => storeBoundingBox s e bbox range styleProvider)
             (fun _ => EraseBoundingBox bbox range)
             (fun _ s => (eraseBoundingBox s bbox range, tt)) g s es
             (fun _ => eq_refl) (fun _ => eq_refl) Hs Havail Hfile Hnever).
Qed.

(** *** Keys that were never registered *)

Lemma subscript_unbound k g :
  StdMap.find k (storeMap_ g) = None ->
  subscript k g =
    (Returned tt, mkState (StdMap.emplace k None (storeMap_ g)) (trace g) (polls g)) /\
  StdMap.find k (StdMap.emplace k (@None Store) (storeMap_ g)) = Some None.
Proof.
  intros Hf. split; [reflexivity | now apply find_emplace_fresh].
Qed.

Lemma invoke_null {A} k (call : Call) (method : Store -> Store * A) g :
  StdMap.find k (storeMap_ g) = Some None ->
  invoke k call method g = (Thrown NullPointerDereference, g).
Proof. unfold invoke. now intros ->. Qed.

(** X9. The element overload of [add] under a key that was never
    registered makes no store call: the subscript inserts a null pointer
    under the key, the call through it is a null dereference, and the null
    entry stays in the registry. *)
Theorem add_element_unregistered_key g storeKey (element : Element)
    (range : LodRange) (styleProvider : StyleProvider)
    (cancelToken : CancellationToken) :
  StdMap.find storeKey (storeMap_ g) = None ->
  let r := add_element storeKey element range styleProvider cancelToken g in
  fst r = Thrown NullPointerDereference /\
  StdMap.find storeKey (storeMap_ (snd r)) = Some None /\
  (forall k, k <> storeKey ->
     StdMap.find k (storeMap_ (snd r)) = StdMap.find k (storeMap_ g)) /\
  trace (snd r) = trace g /\ polls (snd r) = polls g.
Proof.
  intros Hf r. destruct (subscript_unbound _ _ Hf) as [Hsub Hnull].
  assert (Hrun : r = (Thrown NullPointerDereference,
                      mkState (StdMap.emplace storeKey None (storeMap_ g))
                              (trace g) (polls g))).
  { unfold r, add_element. unfold bind at 1. rewrite Hsub.
    unfold bind at 1. rewrite invoke_null by exact Hnull. reflexivity. }
  rewrite Hrun. cbn [fst snd storeMap_ trace polls].
  repeat split; trivial. intros k Hne. now apply find_emplace_other.
Qed.

Lemma ingest_unregistered_first_element k (path : string) (tok : CancellationToken)
    (mkCall : Element -> Call) (method : Element -> Store -> Store * bool)
    (eraseCall : BoundingBox -> Call)
    (eraseMethod : BoundingBox -> Store -> Store * unit) g
    (first : Element) (rest : list ParsedRecord) :
  StdMap.find k (storeMap_ g) = None ->
  parserAvailable PBF_SUPPORTED_ENABLED (getFormatTypeFromPath path) = true ->
  readRecords (getFormatTypeFromPath path) path = Decoded first :: rest ->
  tok (polls g) = false ->
  ingest k path tok mkCall method eraseCall eraseMethod g
  = (Thrown NullPointerDereference,
     mkState (StdMap.emplace k None (storeMap_ g))
             (trace g ++ [Polled DataVisitor false]) (S (polls g))).
Proof.
  intros Hf Havail Hfile Hpoll. destruct (subscript_unbound _ _ Hf) as [Hsub Hnull].
  unfold bind at 1. rewrite Hsub.
  rewrite (add_path_available _ _ _ _ _ Havail), Hfile.
  unfold bind at 1. cbn [parseAndComplete].
  unfold bind at 1, isCancelled at 1. cbn [polls]. rewrite Hpoll.
  unfold bind at 1. rewrite invoke_null by exact Hnull. reflexivity.
Qed.

(** X10. A path ingestion under a key that was never registered, on a
    file whose first record decodes and with the token not cancelled at
    the first poll, fails at the first element: the call through the null
    pointer that the subscript inserted is a null dereference; no store
    call is made, no erase is issued, and the null entry stays.  This
    holds for the three overloads. *)
Theorem add_path_unregistered_key_fails_at_first_element g storeKey (path : string)
    (quadKey : QuadKey) (bbox : BoundingBox) (range : LodRange)
    (styleProvider : StyleProvider) (cancelToken : CancellationToken)
    (first : Element) (rest : list ParsedRecord) :
  StdMap.find storeKey (storeMap_ g) = None ->
  parserAvailable PBF_SUPPORTED_ENABLED (getFormatTypeFromPath path) = true ->
  readRecords (getFormatTypeFromPath path) path = Decoded first :: rest ->
  cancelToken (polls g) = false ->
  let failed (r : Outcome unit * State Store) :=
    fst r = Thrown NullPointerDereference /\
    since g (snd r) = [Polled DataVisitor false] /\
    StdMap.find storeKey (storeMap_ (snd r)) = Some None in
  failed (add_path_quadKey PBF_SUPPORTED_ENABLED readRecords storeKey path quadKey
                           styleProvider cancelToken g) /\
  failed (add_path_range PBF_SUPPORTED_ENABLED readRecords storeKey path range
                         styleProvider cancelToken g) /\
  failed (add_path_bbox_range PBF_SUPPORTED_ENABLED readRecords storeKey path bbox
                              range styleProvider cancelToken g).
Proof.
  intros Hf Havail Hfile Hpoll failed.
  assert (Hfailed : forall r,
    r = (Thrown NullPointerDereference,
         mkState (StdMap.emplace storeKey None (storeMap_ g))
                 (trace g ++ [Polled DataVisitor false]) (S (polls g))) ->
    failed r).
  { intros r ->. unfold failed. cbn [fst snd storeMap_].
    split; [reflexivity |]. split.
    - now apply since_app.
    - now apply find_emplace_fresh. }
  split; [| split]; apply Hfailed.
  - exact (ingest_unregistered_first_element storeKey path cancelToken
             (fun e => StoreQuadKey e quadKey styleProvider)
             (fun e s => storeQuadKey s e quadKey styleProvider)
             (fun _ => EraseQuadKey quadKey)
             (fun _ s => (eraseQuadKey s quadKey, tt)) g first rest
             Hf Havail Hfile Hpoll).
  - exact (ingest_unregistered_first_element storeKey path cancelToken
             (fun e => StoreRange e range styleProvider)
             (fun e s => storeRange s e range styleProvider)
             (fun b => EraseBoundingBox b range)
             (fun b s => (eraseBoundingBox s b range, tt)) g first rest
             Hf Havail Hfile Hpoll).
  - exact (ingest_unregistered_first_element storeKey path cancelToken
             (fun e => StoreBoundingBox e bbox range styleProvider)
             (fun e s => storeBoundingBox s e bbox range styleProvider)
             (fun _ => EraseBoundingBox bbox range)
             (fun _ s => (eraseBoundingBox s bbox range, tt)) g first rest
             Hf Havail Hfile Hpoll).
Qed.

Lemma ingest_unregistered_empty_file k (path : string) (tok : CancellationToken)
    (mkCall : Element -> Call) (method : Element -> Store -> Store * bool)
    (eraseCall : BoundingBox -> Call)
    (eraseMethod : BoundingBox -> Store -> Store * unit) g :
  StdMap.find k (storeMap_ g) = None ->
  parserAvailable PBF_SUPPORTED_ENABLED (getFormatTypeFromPath path) = true ->
  readRecords (getFormatTypeFromPath path) path = [] ->
  ingest k path tok mkCall method eraseCall eraseMethod g
  = if tok (polls g)
    then (Thrown NullPointerDereference,
          mkState (StdMap.emplace k None (storeMap_ g))
                  (trace g ++ [Polled Coordinator true]) (S (polls g)))
    else (Returned tt,
          mkState (StdMap.emplace k None (storeMap_ g))
                  (trace g ++ [Polled Coordinator false]) (S (polls g))).
Proof.
  intros Hf Havail Hfile. destruct (subscript_unbound _ _ Hf) as [Hsub Hnull].
  unfold bind at 1. rewrite Hsub.
  rewrite (add_path_available _ _ _ _ _ Havail), Hfile.
  unfold bind at 1. cbn [parseAndComplete]. unfold ret at 1.
  unfold bind at 1, isCancelled at 1. cbn [polls storeMap_ trace].
  destruct (tok (polls g)).
  - rewrite invoke_null by exact Hnull. reflexivity.
  - reflexivity.
Qed.

(** X11. A path ingestion under a key that was never registered, on a
    file without records, goes unnoticed when the token is not cancelled:
    the call returns normally, and the registry is left with a null
    pointer under the key, so that it no longer consists of stores only.
    When the token is cancelled, the erase through the null pointer is a
    null dereference.  This holds for the three overloads. *)
Theorem add_path_unregistered_key_empty_file g storeKey (path : string)
    (quadKey : QuadKey) (bbox : BoundingBox) (range : LodRange)
    (styleProvider : StyleProvider) (cancelToken : CancellationToken) :
  StdMap.find storeKey (storeMap_ g) = None ->
  parserAvailable PBF_SUPPORTED_ENABLED (getFormatTypeFromPath path) = true ->
  readRecords (getFormatTypeFromPath path) path = [] ->
  let nullLeft (r : Outcome unit * State Store) :=
    fst r = (if cancelToken (polls g)
             then Thrown NullPointerDereference else Returned tt) /\
    since g (snd r) = [Polled Coordinator (cancelToken (polls g))] /\
    StdMap.find storeKey (storeMap_ (snd r)) = Some None /\
    allLive (storeMap_ (snd r)) = false in
  nullLeft (add_path_quadKey PBF_SUPPORTED_ENABLED readRecords storeKey path quadKey
                             styleProvider cancelToken g) /\
  nullLeft (add_path_range PBF_SUPPORTED_ENABLED readRecords storeKey path range
                           styleProvider cancelToken g) /\
  nullLeft (add_path_bbox_range PBF_SUPPORTED_ENABLED readRecords storeKey path bbox
                                range styleProvider cancelToken g).
Proof.
  intros Hf Havail Hfile nullLeft.
  assert (Hdead : allLive (StdMap.emplace storeKey None (storeMap_ g)) = false).
  { clear -Hf. induction (storeMap_ g) as [| [k0 p] m IH]; simpl in *; trivial.
    destruct (StdMap.key_compare storeKey k0); simpl; trivial; [discriminate |].
    rewrite (IH Hf). apply andb_false_r. }
  assert (Hleft : forall r,
    r = (if cancelToken (polls g)
         then (Thrown NullPointerDereference,
               mkState (StdMap.emplace storeKey None (storeMap_ g))
                       (trace g ++ [Polled Coordinator true]) (S (polls g)))
         else (Returned tt,
               mkState (StdMap.emplace storeKey None (storeMap_ g))
                       (trace g ++ [Polled Coordinator false]) (S (polls g)))) ->
    nullLeft r).
  { intros r ->. unfold nullLeft.
    destruct (cancelToken (polls g)); cbn [fst snd storeMap_];
      (split; [reflexivity |]); (split; [now apply since_app |]);
      (split; [now apply find_emplace_fresh | exact Hdead]). }
  split; [| split]; apply Hleft.
  - exact (ingest_unregistered_empty_file storeKey path cancelToken
             (fun e => StoreQuadKey e quadKey styleProvider)
             (fun e s => storeQuadKey s e quadKey styleProvider)
             (fun _ => EraseQuadKey quadKey)
             (fun _ s => (eraseQuadKey s quadKey, tt)) g Hf Havail Hfile).
  - exact (ingest_unregistered_empty_file storeKey path cancelToken
             (fun e => StoreRange e range styleProvider)
             (fun e s => storeRange s e range styleProvider)
             (fun b => EraseBoundingBox b range)
             (fun b s => (eraseBoundingBox s b range, tt)) g Hf Havail Hfile).
  - exact (ingest_unregistered_empty_file storeKey path cancelToken
             (fun e => StoreBoundingBox e bbox range styleProvider)
             (fun e s => storeBoundingBox s e bbox range styleProvider)
             (fun _ => EraseBoundingBox bbox range)
             (fun _ s => (eraseBoundingBox s bbox range, tt)) g Hf Havail Hfile).
Qed.

End IngestionProperties.

(** ** Federated queries *)

Section QueryProperties.
Context {Store : Type} `{ElementStore Store}.
Implicit Types (g : State Store) (k : string) (q quadKey : QuadKey).

Lemma hasData_loop_skips (before rest : list string) q g :
  (forall k, In k before ->
     exists s, StdMap.find k (storeMap_ g) = Some (Some s) /\
               storeHasData s q = false) ->
  hasData_loop (before ++ rest) q g
  = hasData_loop rest q
      (mkState (storeMap_ g)
               (trace g ++ map (fun k => OnStore k (HasData q)) before)
               (polls g)).
Proof.
  revert g. induction before as [| k before IH]; intros g Hbefore; simpl.
  - now rewrite app_nil_r, state_eta.
  - destruct (Hbefore k (or_introl eq_refl)) as (s & Hs & Hno).
    unfold bind at 1. rewrite (invoke_live _ _ _ _ _ Hs). cbn [fst snd].
    rewrite Hno, (assign_same _ _ _ Hs), IH.
    + cbn [storeMap_ trace polls]. now rewrite <- app_assoc.
    + intros k' Hk'. cbn [storeMap_]. apply Hbefore. now right.
Qed.

(** X12. What [hasData] does on a registry that holds a null pointer
    depends on where the first store with data stands: if every store
    before the null pointer reports no data, the loop reaches it and the
    call is a null dereference; if a store reports data first, [hasData]
    returns [true] at that store and nothing behind it, null or not, is
    touched. *)
Theorem hasData_with_null_pointer g quadKey (before after : list string) k :
  StdMap.keys (storeMap_ g) = before ++ k :: after ->
  (forall k', In k' before ->
     exists s, StdMap.find k' (storeMap_ g) = Some (Some s) /\
               storeHasData s quadKey = false) ->
  (StdMap.find k (storeMap_ g) = Some None ->
   hasData quadKey g =
     (Thrown NullPointerDereference,
      mkState (storeMap_ g)
              (trace g ++ map (fun k' => OnStore k' (HasData quadKey)) before)
              (polls g))) /\
  (forall s, StdMap.find k (storeMap_ g) = Some (Some s) ->
             storeHasData s quadKey = true ->
   hasData quadKey g =
     (Returned true,
      mkState (storeMap_ g)
              (trace g ++ map (fun k' => OnStore k' (HasData quadKey)) (before ++ [k]))
              (polls g))).
Proof.
  intros Hkeys Hbefore. unfold hasData. rewrite Hkeys.
  rewrite (hasData_loop_skips before (k :: after) quadKey g Hbefore).
  split.
  - intros Hnull. cbn [hasData_loop]. unfold bind, invoke. cbn [storeMap_].
    now rewrite Hnull.
  - intros s Hs Hhas. cbn [hasData_loop]. unfold bind at 1.
    set (g1 := mkState _ _ _).
    assert (Hs1 : StdMap.find k (storeMap_ g1) = Some (Some s)) by exact Hs.
    rewrite (invoke_live _ _ _ _ _ Hs1). cbn [fst snd]. rewrite Hhas.
    unfold ret, g1. cbn [storeMap_ trace polls].
    now rewrite (assign_same _ _ _ Hs), map_app, app_assoc.
Qed.

Lemma search_quadKey_loop_no_data (ks : list string) q
    (visitor : ElementVisitor) (tok : CancellationToken) g :
  (forall k, In k ks ->
     exists s, StdMap.find k (storeMap_ g) = Some (Some s) /\
               storeHasData s q = false) ->
  search_quadKey_loop ks q visitor tok g
  = (Returned visitor,
     mkState (storeMap_ g)
             (trace g ++ map (fun k => OnStore k (HasData q)) ks) (polls g)).
Proof.
  revert g. induction ks as [| k ks IH]; intros g Hno; simpl.
  - unfold ret. now rewrite app_nil_r, state_eta.
  - destruct (Hno k (or_introl eq_refl)) as (s & Hs & Hfalse).
    unfold bind at 1. rewrite (invoke_live _ _ _ _ _ Hs). cbn [fst snd].
    rewrite Hfalse, (assign_same _ _ _ Hs). unfold bind at 1, ret at 1.
    rewrite IH.
    + cbn [storeMap_ trace polls]. now rewrite <- app_assoc.
    + intros k' Hk'. cbn [storeMap_]. apply Hno. now right.
Qed.

(** X13. A quad key search for a tile that no registered store has data
    for is a round of [hasData] calls and nothing more: it returns the
    visitor as it was given, leaves every store and the poll count
    untouched, and asks each store [hasData] once, in key order. *)
Theorem search_quadKey_without_data_is_noop g quadKey
    (styleProvider : StyleProvider) (visitor : ElementVisitor)
    (cancelToken : CancellationToken) :
  StdMap.ascending (storeMap_ g) = true ->
  allLive (storeMap_ g) = true ->
  (forall k, In k (StdMap.keys (storeMap_ g)) ->
             reports (storeMap_ g) quadKey k = false) ->
  search_quadKey quadKey styleProvider visitor cancelToken g
  = (Returned visitor,
     mkState (storeMap_ g)
             (trace g ++ map (fun k => OnStore k (HasData quadKey))
                             (StdMap.keys (storeMap_ g)))
             (polls g)).
Proof.
  intros Hasc Hlive Hnone. unfold search_quadKey.
  apply search_quadKey_loop_no_data. intros k Hk.
  destruct (allLive_find _ _ Hasc Hlive Hk) as [s Hs].
  exists s. split; [exact Hs |].
  specialize (Hnone k Hk). unfold reports in Hnone. now rewrite Hs in Hnone.
Qed.

Lemma search_quadKey_loop_keeps_skipped (ks : list string) q
    (tok : CancellationToken) :
  forall (visitor : ElementVisitor) g k,
  NoDup ks ->
  (forall k', In k' ks -> exists s, StdMap.find k' (storeMap_ g) = Some (Some s)) ->
  reports (storeMap_ g) q k = false ->
  StdMap.find k (storeMap_ (snd (search_quadKey_loop ks q visitor tok g)))
  = StdMap.find k (storeMap_ g).
Proof.
  induction ks as [| k0 ks IH]; intros visitor g k Hnd Hlive Hskip.
  - reflexivity.
  - inversion Hnd as [| ? ? Hnotin Hnd']; subst.
    destruct (Hlive k0 (or_introl eq_refl)) as [s Hs].
    cbn [search_quadKey_loop]. unfold bind at 1.
    rewrite (invoke_live _ _ _ _ _ Hs). cbn [fst snd].
    rewrite (assign_same _ _ _ Hs).
    set (g1 := mkState (storeMap_ g) (trace g ++ [OnStore k0 (HasData q)]) (polls g)).
    destruct (storeHasData s q) eqn:Hhas.
    + assert (Hne : k <> k0).
      { intros ->. unfold reports in Hskip. rewrite Hs in Hskip. congruence. }
      unfold bind at 1.
      assert (Hs1 : StdMap.find k0 (storeMap_ g1) = Some (Some s)) by exact Hs.
      rewrite (invokeSearch_live _ _ _ _ _ Hs1).
      set (g2 := mkState _ _ _).
      rewrite (IH _ g2 k Hnd').
      * cbn [g2 storeMap_]. now apply find_assign_other.
      * intros k' Hk'. cbn [g2 storeMap_].
        rewrite find_assign_other by (intros ->; contradiction).
        apply Hlive. now right.
      * cbn [g2 storeMap_]. now rewrite reports_assign_other.
    + unfold bind at 1, ret at 1. rewrite (IH _ g1 k Hnd'); trivial.
      intros k' Hk'. apply Hlive. now right.
Qed.

(** X14. The quad key search never changes a store it skips: a store
    that reports no data for the tile is, after the search, exactly the
    store it was before, whatever the searches of the other stores did. *)
Theorem search_quadKey_leaves_skipped_stores g quadKey
    (styleProvider : StyleProvider) (visitor : ElementVisitor)
    (cancelToken : CancellationToken) k (s : Store) :
  StdMap.ascending (storeMap_ g) = true ->
  allLive (storeMap_ g) = true ->
  StdMap.find k (storeMap_ g) = Some (Some s) ->
  storeHasData s quadKey = false ->
  StdMap.find k
    (storeMap_ (snd (search_quadKey quadKey styleProvider visitor cancelToken g)))
  = Some (Some s).
Proof.
  intros Hasc Hlive Hs Hno. unfold search_quadKey.
  rewrite search_quadKey_loop_keeps_skipped.
  - exact Hs.
  - now apply ascending_NoDup.
  - intros k' Hk'. now apply allLive_find.
  - unfold reports. now rewrite Hs.
Qed.

End QueryProperties.

(** ** The registry does not depend on the order of registration *)

Section RegistrationOrder.
Context {Store : Type} `{ElementStore Store}.

Lemma find_below_head {V} (m : StdMap.t V) (k k1 : string) (v1 : V) :
  StdMap.ascending ((k1, v1) :: m) = true ->
  StdMap.key_compare k k1 <> Gt ->
  StdMap.find k m = None.
Proof.
  intros Hasc Hle. destruct m as [| [k2 v2] m]; trivial.
  pose proof (ascending_head k1 v1 _ k2 Hasc (or_introl eq_refl)) as Hlt.
  simpl. destruct (StdMap.key_compare k k1) eqn:Hc; try congruence.
  - apply key_compare_eq in Hc. subst. now rewrite Hlt.
  - now rewrite (key_compare_lt_trans _ _ _ Hc Hlt).
Qed.

(** Two maps in ascending order that answer every lookup alike are the
    same map. *)
Lemma ascending_ext {V} (m1 m2 : StdMap.t V) :
  StdMap.ascending m1 = true -> StdMap.ascending m2 = true ->
  (forall k, StdMap.find k m1 = StdMap.find k m2) -> m1 = m2.
Proof.
  revert m2. induction m1 as [| [k1 v1] m1 IH]; intros [| [k2 v2] m2] Ha1 Ha2 Hfind.
  - reflexivity.
  - specialize (Hfind k2). simpl in Hfind. rewrite key_compare_refl in Hfind.
    discriminate.
  - specialize (Hfind k1). simpl in Hfind. rewrite key_compare_refl in Hfind.
    discriminate.
  - destruct (StdMap.key_compare k1 k2) eqn:Hc.
    + apply key_compare_eq in Hc. subst k2.
      pose proof (Hfind k1) as Hv. simpl in Hv. rewrite key_compare_refl in Hv.
      injection Hv as ->. f_equal. apply IH.
      * simpl in Ha1. now apply andb_prop in Ha1.
      * simpl in Ha2. now apply andb_prop in Ha2.
      * intros k. specialize (Hfind k). simpl in Hfind.
        destruct (StdMap.key_compare k k1) eqn:Hk.
        -- rewrite (find_below_head m1 k k1 _ Ha1) by congruence.
           now rewrite (find_below_head m2 k k1 _ Ha2) by congruence.
        -- rewrite (find_below_head m1 k k1 _ Ha1) by congruence.
           now rewrite (find_below_head m2 k k1 _ Ha2) by congruence.
        -- exact Hfind.
    + specialize (Hfind k1). simpl in Hfind.
      rewrite key_compare_refl, Hc in Hfind. discriminate.
    + specialize (Hfind k2). simpl in Hfind.
      rewrite key_compare_refl, (key_compare_gt _ _ Hc) in Hfind. discriminate.
Qed.

(** X15. Registrations under different keys commute: registering two
    stores under distinct keys in either order leaves the facade in the
    same state, so the iteration order of the searches does not depend on
    who registered first. *)
Theorem registerStore_commutes (g : State Store) (k1 k2 : string)
    (store1 store2 : unique_ptr Store) :
  StdMap.ascending (storeMap_ g) = true ->
  k1 <> k2 ->
  snd (registerStore k2 store2 (snd (registerStore k1 store1 g)))
  = snd (registerStore k1 store1 (snd (registerStore k2 store2 g))).
Proof.
  intros Hasc Hne. simpl. f_equal.
  apply ascending_ext.
  - now apply emplace_ascending, emplace_ascending.
  - now apply emplace_ascending, emplace_ascending.
  - intros k. rewrite !find_emplace.
    destruct (String.eqb_spec k k2), (String.eqb_spec k k1),
             (String.eqb_spec k2 k1), (String.eqb_spec k1 k2);
      try congruence; reflexivity.
Qed.

End RegistrationOrder.

(** ** The further properties on the concrete scenarios *)

Section MoreScenarios.
Import Scenario.

Lemma registerStore_fresh_binds_witness :
  StdMap.find "buildings" (storeMap_ roads) = None /\
  StdMap.find "buildings" (storeMap_ (snd (registerStore "buildings" (Some []) roads)))
    = Some (Some []) /\
  StdMap.find "roads" (storeMap_ (snd (registerStore "buildings" (Some []) roads)))
    = StdMap.find "roads" (storeMap_ roads).
Proof.
  split; [reflexivity |].
  destruct (registerStore_fresh_binds roads "buildings" (Some []) eq_refl)
    as (_ & Hnew & Hother & _).
  split; [exact Hnew |]. apply Hother. discriminate.
Defined.

Lemma getFormatTypeFromPath_suffix_only_witness :
  4 <= String.length "berlin.osm.pbf" /\
  getFormatTypeFromPath ("/maps/europe/" ++ "berlin.osm.pbf")%string
    = getFormatTypeFromPath "berlin.osm.pbf".
Proof.
  split; [simpl; lia |].
  apply getFormatTypeFromPath_suffix_only. simpl. lia.
Defined.

Lemma getFormatTypeFromPath_short_is_shape_witness :
  String.length "ml" < 3 /\ getFormatTypeFromPath "ml" = Shape.
Proof.
  split; [simpl; lia |].
  apply getFormatTypeFromPath_short_is_shape. simpl. lia.
Defined.

Lemma add_touches_only_its_store_witness :
  StdMap.find "roads" (storeMap_ roadsAndBuildings)
    = Some (Some [(element 7, InMemory.UnderQuadKey otherTile)]) /\
  StdMap.find "buildings"
    (storeMap_ (snd (add_path_quadKey false files "roads" "data.json" tile anyStyle
                                      (cancelledAfter 3) roadsAndBuildings)))
  = StdMap.find "buildings" (storeMap_ roadsAndBuildings).
Proof.
  split; [reflexivity |].
  destruct (add_touches_only_its_store false files roadsAndBuildings "roads"
              "data.json" (element 1) tile box lod anyStyle (cancelledAfter 3)
              [(element 7, InMemory.UnderQuadKey otherTile)] eq_refl)
    as (_ & (Hother & _) & _).
  apply Hother. discriminate.
Defined.

Lemma add_path_thrown_keeps_partial_writes_witness :
  let r := add_path_quadKey false files "roads" "broken.xml" tile anyStyle
                            neverCancelled roads in
  StdMap.find "roads" (storeMap_ roads) = Some (Some []) /\
  fst r = Thrown ParserError /\
  count isErase (since roads (snd r)) = 0 /\
  count isCoordinatorPoll (since roads (snd r)) = 0.
Proof.
  intros r. split; [reflexivity |]. split; [reflexivity |].
  destruct (add_path_thrown_keeps_partial_writes false files roads "roads"
              "broken.xml" tile box lod anyStyle neverCancelled [] eq_refl)
    as (Htile & _).
  destruct (Htile ParserError eq_refl) as (Herase & Hpoll & _).
  split; [exact Herase | exact Hpoll].
Defined.

Lemma add_path_uncancelled_stores_whole_file_witness :
  let r := add_path_range false files "roads" "data.json" lod anyStyle
                          neverCancelled roads in
  StdMap.find "roads" (storeMap_ roads) = Some (Some []) /\
  parserAvailable false (getFormatTypeFromPath "data.json") = true /\
  files (getFormatTypeFromPath "data.json") "data.json" = map Decoded fiveElements /\
  fst r = Returned tt /\
  flat_map offeredElement (since roads (snd r)) = fiveElements /\
  count isErase (since roads (snd r)) = 0.
Proof.
  intros r. do 3 (split; [reflexivity |]).
  destruct (add_path_uncancelled_stores_whole_file false files roads "roads"
              "data.json" tile box lod anyStyle neverCancelled [] fiveElements
              eq_refl eq_refl eq_refl (fun _ => eq_refl))
    as (_ & (Hout & Hall & Hnoerase & _) & _).
  split; [exact Hout |]. split; [exact Hall | exact Hnoerase].
Defined.

Lemma add_element_unregistered_key_witness :
  StdMap.find "missing" (storeMap_ roads) = None /\
  fst (add_element "missing" (element 1) lod anyStyle neverCancelled roads)
    = Thrown NullPointerDereference /\
  StdMap.find "missing"
    (storeMap_ (snd (add_element "missing" (element 1) lod anyStyle neverCancelled
                                 roads)))
    = Some None.
Proof.
  split; [reflexivity |].
  destruct (add_element_unregistered_key roads "missing" (element 1) lod anyStyle
              neverCancelled eq_refl) as (Hout & Hnull & _).
  split; [exact Hout | exact Hnull].
Defined.

Lemma add_path_unregistered_key_fails_at_first_element_witness :
  StdMap.find "missing" (storeMap_ roads) = None /\
  files (getFormatTypeFromPath "data.json") "data.json"
    = Decoded (element 1) :: map Decoded [element 2; element 3; element 4; element 5] /\
  fst (add_path_range false files "missing" "data.json" lod anyStyle neverCancelled
                      roads)
    = Thrown NullPointerDereference.
Proof.
  split; [reflexivity |]. split; [reflexivity |].
  destruct (add_path_unregistered_key_fails_at_first_element false files roads
              "missing" "data.json" tile box lod anyStyle neverCancelled
              (element 1) (map Decoded [element 2; element 3; element 4; element 5])
              eq_refl eq_refl eq_refl eq_refl)
    as (_ & (Hout & _) & _).
  exact Hout.
Defined.

Lemma add_path_unregistered_key_empty_file_witness :
  let r := add_path_bbox_range false files "missing" "empty.json" box lod anyStyle
                               neverCancelled roads in
  StdMap.find "missing" (storeMap_ roads) = None /\
  files (getFormatTypeFromPath "empty.json") "empty.json" = [] /\
  fst r = Returned tt /\
  StdMap.find "missing" (storeMap_ (snd r)) = Some None /\
  allLive (storeMap_ (snd r)) = false.
Proof.
  intros r. split; [reflexivity |]. split; [reflexivity |].
  destruct (add_path_unregistered_key_empty_file false files roads "missing"
              "empty.json" tile box lod anyStyle neverCancelled
              eq_refl eq_refl eq_refl)
    as (_ & _ & (Hout & _ & Hnull & Hdead)).
  split; [exact Hout |]. split; [exact Hnull | exact Hdead].
Defined.

Lemma hasData_with_null_pointer_witness :
  StdMap.keys (storeMap_ withNullPointer) = ["airports"] ++ "missing" :: ["roads"] /\
  StdMap.find "missing" (storeMap_ withNullPointer) = Some None /\
  fst (hasData tile withNullPointer) = Thrown NullPointerDereference.
Proof.
  split; [reflexivity |]. split; [reflexivity |].
  destruct (hasData_with_null_pointer withNullPointer tile ["airports"] ["roads"]
              "missing" eq_refl) as [Hnull _].
  - intros k' [<- | []]. exists []. split; reflexivity.
  - now rewrite (Hnull eq_refl).
Defined.

Lemma search_quadKey_without_data_is_noop_witness :
  StdMap.ascending (storeMap_ roadsAndBuildings) = true /\
  allLive (storeMap_ roadsAndBuildings) = true /\
  search_quadKey emptyTile anyStyle [element 1] neverCancelled roadsAndBuildings
  = (Returned [element 1],
     mkState (storeMap_ roadsAndBuildings)
             [OnStore "buildings" (HasData emptyTile);
              OnStore "roads" (HasData emptyTile)] 0).
Proof.
  split; [reflexivity |]. split; [reflexivity |].
  apply (search_quadKey_without_data_is_noop roadsAndBuildings emptyTile anyStyle
           [element 1] neverCancelled eq_refl eq_refl).
  intros k [<- | [<- | []]]; reflexivity.
Defined.

Lemma search_quadKey_leaves_skipped_stores_witness :
  StdMap.ascending (storeMap_ roadsAndBuildings) = true /\
  allLive (storeMap_ roadsAndBuildings) = true /\
  StdMap.find "roads"
    (storeMap_ (snd (search_quadKey tile anyStyle [] neverCancelled roadsAndBuildings)))
  = Some (Some [(element 7, InMemory.UnderQuadKey otherTile)]).
Proof.
  split; [reflexivity |]. split; [reflexivity |].
  exact (search_quadKey_leaves_skipped_stores roadsAndBuildings tile anyStyle []
           neverCancelled "roads" [(element 7, InMemory.UnderQuadKey otherTile)]
           eq_refl eq_refl eq_refl eq_refl).
Defined.

Lemma registerStore_commutes_witness :
  StdMap.ascending (storeMap_ roads) = true /\
  "buildings" <> "airports" /\
  snd (registerStore "airports" (Some []) (snd (registerStore "buildings" (Some []) roads)))
  = snd (registerStore "buildings" (Some []) (snd (registerStore "airports" (Some []) roads))).
Proof.
  split; [reflexivity |]. split; [discriminate |].
  apply (registerStore_commutes roads "buildings" "airports" (Some []) (Some []) eq_refl).
  discriminate.
Defined.

End MoreScenarios.
